(** * Reply correlation in ExpoWatchConnectivityModule

    A shallow embedding of the reply bookkeeping of the iOS module
    (the Swift class [ExpoWatchConnectivityModule] and its
    [WatchSessionDelegate]): the two dictionaries of pending reply
    handlers, the bridge functions [replyToMessage] and
    [replyToMessageData], the dispatchers [dispatchMessageReceived] and
    [dispatchMessageDataReceived] with their 30 second expiry blocks, and
    the session delegate callbacks that reach them.

    Swift dictionaries are finite maps ([gmap]); the module's mutable
    properties, the main dispatch queue and the clock are threaded through
    a state monad; calls that leave the module (a reply handler being
    invoked, [sendEvent], [session.activate()]) are recorded, in order, in
    a list of effects.

    What the platform provides is kept apart from what the module does:
    - base64 coding is a class parameter, so that the properties hold for
      whatever Foundation accepts as base64;
    - [UUID()] is a sequence of strings, read one after the other; where a
      property needs the UUIDs to be distinct it says so;
    - [asyncAfter] promises that a block does not run before its
      deadline, not that it runs at it.  [elapse] is the main queue at
      its most punctual: it runs every block the moment the clock reaches
      the time the block is due.  The runs made of [Move]s are those of a
      main queue that can be late: time passes without any block being
      run, and a block that is due runs when the main queue gets to it;
    - [replyLock] is held for the whole body of each function and block
      that touches the dictionaries, so where calls follow one another a
      call runs from its start to its end; the part on threads has the
      lock, [removeValue(forKey:)] as two steps and schedules, for a
      reply that races an expiry block. *)

From Stdlib Require Import NArith ZArith Lia Ascii.
From stdpp Require Import gmap strings list fin_maps pretty.

#[local] Set Warnings "-register-all".
#[local] Open Scope N_scope.

(** ** Platform values *)

(** Foundation's [Data]: a buffer of bytes. *)
Definition Data : Type := list Byte.byte.

(** The values a [[String: Any]] of WatchConnectivity can hold (property
    list values). *)
Inductive AnyValue : Type :=
  | AnyNull
  | AnyBool (b : bool)
  | AnyNumber (z : Z)
  | AnyString (s : string)
  | AnyData (d : Data)
  | AnyArray (l : list AnyValue)
  | AnyDict (d : gmap string AnyValue).

(** [[String: Any]] *)
Abbreviation Dict := (gmap string AnyValue).

(** The reply closures WatchConnectivity hands to the delegate are opaque:
    all the module ever does with one is store it and call it.  A closure
    is represented by a reference; calling it is an effect.  The two
    closure types [([String: Any]) -> Void] and [(Data) -> Void] stay
    distinct types. *)
Inductive MessageReplyHandler : Type := MessageReply (ref : nat).
Inductive DataReplyHandler : Type := DataReply (ref : nat).

(** [Data.base64EncodedString()] and [Data(base64Encoded:)]. *)
Class Base64Codec : Type := {
  base64EncodedString : Data → string;
  dataBase64Encoded : string → option Data
}.

(** [UUID().uuidString]: the value of the k-th call made in a run. *)
Class UUIDSource : Type := {
  uuidString : nat → string
}.

(** ** Module state and effects *)

(** What the module does to the outside world. *)
Inductive Effect : Type :=
  | SendEvent (name : string) (payload : Dict)
  | InvokeMessageReply (handler : MessageReplyHandler) (reply : Dict)
  | InvokeDataReply (handler : DataReplyHandler) (data : Data)
  | ActivateSession.

(** The two closures passed to [DispatchQueue.main.asyncAfter]. *)
Inductive ExpiryBlock : Type :=
  | ExpireMessageReply (replyId : string)
  | ExpireDataReply (replyId : string).

(** A block waiting on the main queue, with the time it becomes due
    (nanoseconds of [DispatchTime]). *)
Record DelayedBlock : Type := {
  fireAt : N;
  block : ExpiryBlock
}.

Record ModuleState : Type := {
  pendingMessageReplies : gmap string MessageReplyHandler;
  pendingDataReplies : gmap string DataReplyHandler;
  mainQueue : list DelayedBlock;
  now : N;
  uuidsDrawn : nat;
  effects : list Effect
}.

Definition initialState : ModuleState := {|
  pendingMessageReplies := ∅;
  pendingDataReplies := ∅;
  mainQueue := [];
  now := 0;
  uuidsDrawn := 0;
  effects := []
|}.

(** [.now() + 30]: thirty seconds, in nanoseconds. *)
Definition replyExpiry : N := 30 * 1000000000.

#[global] Instance ExpiryBlock_eq_dec : EqDecision ExpiryBlock.
Proof. solve_decision. Defined.

(** ** The state monad of the module *)

Definition Bridge (A : Type) : Type := ModuleState → A * ModuleState.

Definition ret {A} (a : A) : Bridge A := λ s, (a, s).

Definition bind {A B} (m : Bridge A) (k : A → Bridge B) : Bridge B :=
  λ s, let '(a, s') := m s in k a s'.

Declare Scope bridge_scope.
Delimit Scope bridge_scope with bridge.
Notation "'let*' x := m 'in' k" := (bind m (λ x, k))
  (at level 10, x name, m at level 100, k at level 200) : bridge_scope.
Notation "m ;;; k" := (bind m (λ _, k))
  (at level 100, k at level 200, right associativity) : bridge_scope.
#[local] Open Scope bridge_scope.

Definition exec {A} (m : Bridge A) (s : ModuleState) : ModuleState := (m s).2.
Definition result {A} (m : Bridge A) (s : ModuleState) : A := (m s).1.

(** Swift's [Dictionary.removeValue(forKey:)]: the removed value, or nil. *)
Definition removeValue {V} (key : string) (d : gmap string V)
  : option V * gmap string V :=
  (d !! key, delete key d).

Definition removeMessageReply (replyId : string)
  : Bridge (option MessageReplyHandler) := λ s,
  let '(h, d) := removeValue replyId (pendingMessageReplies s) in
  (h, {| pendingMessageReplies := d;
         pendingDataReplies := pendingDataReplies s;
         mainQueue := mainQueue s;
         now := now s;
         uuidsDrawn := uuidsDrawn s;
         effects := effects s |}).

Definition removeDataReply (replyId : string)
  : Bridge (option DataReplyHandler) := λ s,
  let '(h, d) := removeValue replyId (pendingDataReplies s) in
  (h, {| pendingMessageReplies := pendingMessageReplies s;
         pendingDataReplies := d;
         mainQueue := mainQueue s;
         now := now s;
         uuidsDrawn := uuidsDrawn s;
         effects := effects s |}).

(** [pendingMessageReplies[replyId] = handler] *)
Definition setMessageReply (replyId : string) (handler : MessageReplyHandler)
  : Bridge unit := λ s,
  (tt, {| pendingMessageReplies := <[replyId := handler]> (pendingMessageReplies s);
          pendingDataReplies := pendingDataReplies s;
          mainQueue := mainQueue s;
          now := now s;
          uuidsDrawn := uuidsDrawn s;
          effects := effects s |}).

(** [pendingDataReplies[replyId] = handler] *)
Definition setDataReply (replyId : string) (handler : DataReplyHandler)
  : Bridge unit := λ s,
  (tt, {| pendingMessageReplies := pendingMessageReplies s;
          pendingDataReplies := <[replyId := handler]> (pendingDataReplies s);
          mainQueue := mainQueue s;
          now := now s;
          uuidsDrawn := uuidsDrawn s;
          effects := effects s |}).

Definition perform (e : Effect) : Bridge unit := λ s,
  (tt, {| pendingMessageReplies := pendingMessageReplies s;
          pendingDataReplies := pendingDataReplies s;
          mainQueue := mainQueue s;
          now := now s;
          uuidsDrawn := uuidsDrawn s;
          effects := effects s ++ [e] |}).

Definition sendEvent (name : string) (payload : Dict) : Bridge unit :=
  perform (SendEvent name payload).

(** [DispatchQueue.main.asyncAfter(deadline: .now() + delay) { block }] *)
Definition asyncAfter (delay : N) (b : ExpiryBlock) : Bridge unit := λ s,
  (tt, {| pendingMessageReplies := pendingMessageReplies s;
          pendingDataReplies := pendingDataReplies s;
          mainQueue := mainQueue s ++ [{| fireAt := now s + delay; block := b |}];
          now := now s;
          uuidsDrawn := uuidsDrawn s;
          effects := effects s |}).

(** The body of an expiry block: lock, [removeValue(forKey:)] with the
    result thrown away, unlock. *)
Definition runBlock (b : ExpiryBlock) : Bridge unit :=
  match b with
  | ExpireMessageReply replyId => removeMessageReply replyId ;;; ret tt
  | ExpireDataReply replyId => removeDataReply replyId ;;; ret tt
  end.

Section WithPlatform.
Context {codec : Base64Codec} {uuids : UUIDSource}.

(** [UUID().uuidString] *)
Definition newUUID : Bridge string := λ s,
  (uuidString (uuidsDrawn s),
   {| pendingMessageReplies := pendingMessageReplies s;
      pendingDataReplies := pendingDataReplies s;
      mainQueue := mainQueue s;
      now := now s;
      uuidsDrawn := S (uuidsDrawn s);
      effects := effects s |}).

(** *** Reply handling

    Both functions return [Void] in the source.  The boolean returned
    here tells whether the [if let handler = ...removeValue(...)]
    binding succeeded; the bridge throws it away. *)

Definition replyToMessage (replyId : string) (reply : Dict) : Bridge bool :=
  let* found := removeMessageReply replyId in
  match found with
  | Some handler => perform (InvokeMessageReply handler reply) ;;; ret true
  | None => ret false
  end.

Definition replyToMessageData (replyId : string) (base64Data : string)
  : Bridge bool :=
  match dataBase64Encoded base64Data with
  | None => ret false
  | Some data =>
      let* found := removeDataReply replyId in
      match found with
      | Some handler => perform (InvokeDataReply handler data) ;;; ret true
      | None => ret false
      end
  end.

(** *** Event dispatchers

    Each returns the payload it sent (the source returns [Void]; the
    payload is also the argument of the recorded [SendEvent]). *)

Definition dispatchMessageReceived (message : Dict)
    (replyHandler : option MessageReplyHandler) : Bridge Dict :=
  let payload : Dict := {[ "message" := AnyDict message ]} in
  let* payload :=
    match replyHandler with
    | Some handler =>
        let* replyId := newUUID in
        setMessageReply replyId handler ;;;
        let payload := <["replyId" := AnyString replyId]> payload in
        asyncAfter replyExpiry (ExpireMessageReply replyId) ;;;
        ret payload
    | None => ret payload
    end in
  sendEvent "onMessageReceived" payload ;;;
  ret payload.

Definition dispatchMessageDataReceived (data : Data)
    (replyHandler : option DataReplyHandler) : Bridge Dict :=
  let payload : Dict := {[ "data" := AnyString (base64EncodedString data) ]} in
  let* payload :=
    match replyHandler with
    | Some handler =>
        let* replyId := newUUID in
        setDataReply replyId handler ;;;
        let payload := <["replyId" := AnyString replyId]> payload in
        asyncAfter replyExpiry (ExpireDataReply replyId) ;;;
        ret payload
    | None => ret payload
    end in
  sendEvent "onMessageDataReceived" payload ;;;
  ret payload.

(** [buildSessionState()] reads the session's properties; the snapshot
    it builds is an input here. *)
Definition dispatchSessionStateChanged (sessionState : Dict) : Bridge unit :=
  sendEvent "onSessionStateChanged" sessionState.

(** [OnStopObserving { }]: the body holds only a remark that the
    delegate stays active. *)
Definition onStopObserving : Bridge unit := ret tt.

(** *** WatchSessionDelegate *)

Definition sessionDidBecomeInactive (sessionState : Dict) : Bridge unit :=
  dispatchSessionStateChanged sessionState.

Definition sessionDidDeactivate (sessionState : Dict) : Bridge unit :=
  dispatchSessionStateChanged sessionState ;;;
  perform ActivateSession.

Definition didReceiveMessage (message : Dict) : Bridge Dict :=
  dispatchMessageReceived message None.

Definition didReceiveMessageWithReply (message : Dict)
    (replyHandler : MessageReplyHandler) : Bridge Dict :=
  dispatchMessageReceived message (Some replyHandler).

Definition didReceiveMessageData (messageData : Data) : Bridge Dict :=
  dispatchMessageDataReceived messageData None.

Definition didReceiveMessageDataWithReply (messageData : Data)
    (replyHandler : DataReplyHandler) : Bridge Dict :=
  dispatchMessageDataReceived messageData (Some replyHandler).

(** *** The main queue, punctual

    [elapse] moves the clock and has the main queue run, in submission
    order, every block that has become due, keeping the others.  A main
    queue that is late is described further down ([timePasses],
    [mainQueueRuns]). *)

Fixpoint runBlocks (bs : list DelayedBlock) : Bridge unit :=
  match bs with
  | [] => ret tt
  | b :: bs => runBlock (block b) ;;; runBlocks bs
  end.

Definition dueAt (t : N) (q : list DelayedBlock) : list DelayedBlock :=
  filter (λ b, fireAt b ≤ t) q.

Definition waitingAt (t : N) (q : list DelayedBlock) : list DelayedBlock :=
  filter (λ b, ¬ fireAt b ≤ t) q.

Definition drainMainQueue : Bridge unit := λ s,
  let due := dueAt (now s) (mainQueue s) in
  let waiting := waitingAt (now s) (mainQueue s) in
  runBlocks due
    {| pendingMessageReplies := pendingMessageReplies s;
       pendingDataReplies := pendingDataReplies s;
       mainQueue := waiting;
       now := now s;
       uuidsDrawn := uuidsDrawn s;
       effects := effects s |}.

Definition elapse (dt : N) : Bridge unit := λ s,
  drainMainQueue
    {| pendingMessageReplies := pendingMessageReplies s;
       pendingDataReplies := pendingDataReplies s;
       mainQueue := mainQueue s;
       now := now s + dt;
       uuidsDrawn := uuidsDrawn s;
       effects := effects s |}.

(** *** Runs of the module

    What can happen to the module: a delegate callback from the
    session, a bridge call from the application, or time passing. *)

Inductive Call : Type :=
  | DidReceiveMessage (message : Dict)
  | DidReceiveMessageWithReply (message : Dict) (replyHandler : MessageReplyHandler)
  | DidReceiveMessageData (messageData : Data)
  | DidReceiveMessageDataWithReply (messageData : Data) (replyHandler : DataReplyHandler)
  | ReplyToMessage (replyId : string) (reply : Dict)
  | ReplyToMessageData (replyId : string) (base64Data : string)
  | SessionDidBecomeInactive (sessionState : Dict)
  | SessionDidDeactivate (sessionState : Dict)
  | StopObserving
  | Elapse (dt : N).

Definition call (c : Call) : Bridge unit :=
  match c with
  | DidReceiveMessage m => didReceiveMessage m ;;; ret tt
  | DidReceiveMessageWithReply m h => didReceiveMessageWithReply m h ;;; ret tt
  | DidReceiveMessageData d => didReceiveMessageData d ;;; ret tt
  | DidReceiveMessageDataWithReply d h => didReceiveMessageDataWithReply d h ;;; ret tt
  | ReplyToMessage i r => replyToMessage i r ;;; ret tt
  | ReplyToMessageData i b => replyToMessageData i b ;;; ret tt
  | SessionDidBecomeInactive st => sessionDidBecomeInactive st
  | SessionDidDeactivate st => sessionDidDeactivate st
  | StopObserving => onStopObserving
  | Elapse dt => elapse dt
  end.

Fixpoint run (cs : list Call) (s : ModuleState) : ModuleState :=
  match cs with
  | [] => s
  | c :: cs => run cs (exec (call c) s)
  end.

End WithPlatform.

(** ** Threads and the reply lock

    Replies arrive on the thread of the bridge call, expiry blocks run on
    the main queue.  Here the bodies of [replyToMessage],
    [replyToMessageData] and of the two expiry blocks are sequences of
    instructions, run by threads that share the module state and
    [replyLock]; a schedule says which thread moves next.

    [removeValue(forKey:)] is not one step: a thread first finds what is
    stored under the key and then writes the dictionary without it, and
    another thread can move in between.  Only [replyLock] keeps it out: a
    thread that asks for a lock that is held does not move. *)

Inductive Instr : Type :=
  | Lock
  | Unlock
  | FindMessageReply (replyId : string)
  | EraseMessageReply (replyId : string)
  | FindDataReply (replyId : string)
  | EraseDataReply (replyId : string)
  | CallMessageHandler (reply : Dict)
  | CallDataHandler (data : Data).

(** A thread: the instructions it has still to run, and what its
    [removeValue(forKey:)] found, once it has looked. *)
Record Thread : Type := {
  code : list Instr;
  foundMessage : option (option MessageReplyHandler);
  foundData : option (option DataReplyHandler)
}.

Record Config : Type := {
  shared : ModuleState;
  lockedBy : option nat;
  threads : list Thread
}.

Definition spawn (body : list Instr) : Thread :=
  {| code := body; foundMessage := None; foundData := None |}.

(** [pendingMessageReplies.removeValue(forKey: replyId)] *)
Definition removeMessageValue (replyId : string) : list Instr :=
  [FindMessageReply replyId; EraseMessageReply replyId].

(** [pendingDataReplies.removeValue(forKey: replyId)] *)
Definition removeDataValue (replyId : string) : list Instr :=
  [FindDataReply replyId; EraseDataReply replyId].

(** [replyToMessage]: lock, [if let handler = removeValue] then call it,
    and the deferred unlock. *)
Definition replyToMessageThread (replyId : string) (reply : Dict) : list Instr :=
  [Lock] ++ removeMessageValue replyId ++ [CallMessageHandler reply] ++ [Unlock].

(** [replyToMessageData]: lock, return at the guard when the string does
    not decode, else as above; the deferred unlock runs either way. *)
Definition replyToMessageDataThread {codec : Base64Codec}
    (replyId : string) (base64Data : string) : list Instr :=
  [Lock] ++
  match dataBase64Encoded base64Data with
  | None => []
  | Some data => removeDataValue replyId ++ [CallDataHandler data]
  end ++ [Unlock].

(** An expiry block: lock, [removeValue], unlock. *)
Definition expiryThread (b : ExpiryBlock) : list Instr :=
  match b with
  | ExpireMessageReply replyId => [Lock] ++ removeMessageValue replyId ++ [Unlock]
  | ExpireDataReply replyId => [Lock] ++ removeDataValue replyId ++ [Unlock]
  end.

(** The same body with the calls to [replyLock] left out: what would run
    if the lock were not there. *)
Definition withoutLock (body : list Instr) : list Instr :=
  List.filter (λ i, match i with Lock | Unlock => false | _ => true end) body.

Definition advance (i : nat) (t : Thread) (rest : list Instr) (cfg : Config)
  : list Thread :=
  <[i := {| code := rest;
            foundMessage := foundMessage t;
            foundData := foundData t |}]> (threads cfg).

(** Thread [i] runs its next instruction; a thread that waits for the
    lock, has finished or does not exist leaves the configuration as it
    is. *)
Definition step (i : nat) (cfg : Config) : Config :=
  match threads cfg !! i with
  | None => cfg
  | Some t =>
      match code t with
      | [] => cfg
      | Lock :: rest =>
          match lockedBy cfg with
          | Some _ => cfg
          | None =>
              {| shared := shared cfg;
                 lockedBy := Some i;
                 threads := advance i t rest cfg |}
          end
      | Unlock :: rest =>
          {| shared := shared cfg;
             lockedBy := None;
             threads := advance i t rest cfg |}
      | FindMessageReply replyId :: rest =>
          {| shared := shared cfg;
             lockedBy := lockedBy cfg;
             threads :=
               <[i := {| code := rest;
                         foundMessage :=
                           Some (pendingMessageReplies (shared cfg) !! replyId);
                         foundData := foundData t |}]> (threads cfg) |}
      | EraseMessageReply replyId :: rest =>
          {| shared := exec (removeMessageReply replyId) (shared cfg);
             lockedBy := lockedBy cfg;
             threads := advance i t rest cfg |}
      | FindDataReply replyId :: rest =>
          {| shared := shared cfg;
             lockedBy := lockedBy cfg;
             threads :=
               <[i := {| code := rest;
                         foundMessage := foundMessage t;
                         foundData :=
                           Some (pendingDataReplies (shared cfg) !! replyId) |}]>
                 (threads cfg) |}
      | EraseDataReply replyId :: rest =>
          {| shared := exec (removeDataReply replyId) (shared cfg);
             lockedBy := lockedBy cfg;
             threads := advance i t rest cfg |}
      | CallMessageHandler reply :: rest =>
          {| shared :=
               match foundMessage t with
               | Some (Some handler) =>
                   exec (perform (InvokeMessageReply handler reply)) (shared cfg)
               | _ => shared cfg
               end;
             lockedBy := lockedBy cfg;
             threads := advance i t rest cfg |}
      | CallDataHandler data :: rest =>
          {| shared :=
               match foundData t with
               | Some (Some handler) =>
                   exec (perform (InvokeDataReply handler data)) (shared cfg)
               | _ => shared cfg
               end;
             lockedBy := lockedBy cfg;
             threads := advance i t rest cfg |}
      end
  end.

Fixpoint interleave (schedule : list nat) (cfg : Config) : Config :=
  match schedule with
  | [] => cfg
  | i :: schedule => interleave schedule (step i cfg)
  end.

(** Every thread has returned. *)
Definition finished (cfg : Config) : bool :=
  forallb (λ t, match code t with [] => true | _ => false end) (threads cfg).

(** The thread has looked a key up and not yet written the dictionary
    back: it is in the middle of a [removeValue(forKey:)]. *)
Definition removing (t : Thread) : bool :=
  match code t with
  | EraseMessageReply _ :: _ | EraseDataReply _ :: _ => true
  | _ => false
  end.

(** How many threads are in the middle of a [removeValue(forKey:)]. *)
Definition removers (cfg : Config) : nat :=
  length (List.filter removing (threads cfg)).

(** A reply to [replyId] (thread 0) racing the expiry block of [replyId]
    (thread 1). *)
Definition raceMessage (s : ModuleState) (replyId : string) (reply : Dict)
  : Config :=
  {| shared := s;
     lockedBy := None;
     threads := [spawn (replyToMessageThread replyId reply);
                 spawn (expiryThread (ExpireMessageReply replyId))] |}.

Definition raceData {codec : Base64Codec} (s : ModuleState)
    (replyId : string) (base64Data : string) : Config :=
  {| shared := s;
     lockedBy := None;
     threads := [spawn (replyToMessageDataThread replyId base64Data);
                 spawn (expiryThread (ExpireDataReply replyId))] |}.

(** Any two bodies on two threads, the lock free at the start. *)
Definition raceOf (s : ModuleState) (replyBody expiryBody : list Instr)
  : Config :=
  {| shared := s;
     lockedBy := None;
     threads := [spawn replyBody; spawn expiryBody] |}.

(** The schedules that run one thread up to some point, or one thread to
    its end and then the other up to some point. *)
Definition serialSchedules : list (list nat) :=
  [ []; [0]; [0;0]; [0;0;0]; [0;0;0;0]; [0;0;0;0;0];
    [1]; [1;1]; [1;1;1]; [1;1;1;1];
    [0;0;0;0;0;1]; [0;0;0;0;0;1;1]; [0;0;0;0;0;1;1;1]; [0;0;0;0;0;1;1;1;1];
    [1;1;1;1;0]; [1;1;1;1;0;0]; [1;1;1;1;0;0;0]; [1;1;1;1;0;0;0;0];
    [1;1;1;1;0;0;0;0;0] ]%nat.

(** [cfg] is where some serial schedule leads from [cfg0]. *)
Definition serial (cfg0 cfg : Config) : Prop :=
  ∃ schedule, schedule ∈ serialSchedules ∧ cfg = interleave schedule cfg0.

(** Letting the reply move, then the expiry block, then the reply again
    brings both to their end from wherever they are. *)
Definition completion : list nat :=
  [0;0;0;0;0;1;1;1;1;1;0;0;0;0;0]%nat.

(** ** Notions used in the statements *)

(** The two kinds of pending reply, to speak of both dictionaries at once. *)
Inductive Kind : Type := Structured | RawBytes.

Definition pendingEntry (k : Kind) (s : ModuleState) (replyId : string)
  : option (MessageReplyHandler + DataReplyHandler) :=
  match k with
  | Structured => inl <$> pendingMessageReplies s !! replyId
  | RawBytes => inr <$> pendingDataReplies s !! replyId
  end.

Definition expiryOf (k : Kind) (replyId : string) : ExpiryBlock :=
  match k with
  | Structured => ExpireMessageReply replyId
  | RawBytes => ExpireDataReply replyId
  end.

Definition blockId (b : ExpiryBlock) : string :=
  match b with
  | ExpireMessageReply replyId => replyId
  | ExpireDataReply replyId => replyId
  end.

(** The [replyId] field of an event payload, when it is there. *)
Definition replyIdOf (payload : Dict) : option string :=
  match payload !! "replyId" with
  | Some (AnyString replyId) => Some replyId
  | _ => None
  end.

Definition eventReplyId (e : Effect) : option string :=
  match e with
  | SendEvent name payload =>
      if decide (name = "onMessageReceived" ∨ name = "onMessageDataReceived")
      then replyIdOf payload else None
  | _ => None
  end.

(** The reply ids handed to the application so far, oldest first. *)
Definition issuedReplyIds (es : list Effect) : list string :=
  omap eventReplyId es.

(** What a call that only reports to the application emits. *)
Definition reports {codec : Base64Codec} (c : Call) : option (list Effect) :=
  match c with
  | DidReceiveMessage message =>
      Some [SendEvent "onMessageReceived" {[ "message" := AnyDict message ]}]
  | DidReceiveMessageData received =>
      Some [SendEvent "onMessageDataReceived"
              {[ "data" := AnyString (base64EncodedString received) ]}]
  | SessionDidBecomeInactive st => Some [SendEvent "onSessionStateChanged" st]
  | SessionDidDeactivate st =>
      Some [SendEvent "onSessionStateChanged" st; ActivateSession]
  | StopObserving => Some []
  | _ => None
  end.

(** [c] registers the handler [v] as a pending reply of kind [k]. *)
Definition registers (c : Call) (k : Kind)
    (v : MessageReplyHandler + DataReplyHandler) : Prop :=
  match c, k with
  | DidReceiveMessageWithReply _ handler, Structured => v = inl handler
  | DidReceiveMessageDataWithReply _ handler, RawBytes => v = inr handler
  | _, _ => False
  end.

(** [c] puts an expiry block of kind [k] on the main queue. *)
Definition registers_block (c : Call) (k : Kind) : Prop :=
  match c, k with
  | DidReceiveMessageWithReply _ _, Structured => True
  | DidReceiveMessageDataWithReply _ _, RawBytes => True
  | _, _ => False
  end.

(** [c] is a reply of kind [k] to [replyId]. *)
Definition repliesTo (c : Call) (k : Kind) (replyId : string) : Prop :=
  match c, k with
  | ReplyToMessage X _, Structured => X = replyId
  | ReplyToMessageData X _, RawBytes => X = replyId
  | _, _ => False
  end.

Section Reachable.
Context {uuids : UUIDSource}.

(** [replyId] is one of the UUIDs already drawn in [s]. *)
Definition drawn (s : ModuleState) (replyId : string) : Prop :=
  ∃ j, (j < uuidsDrawn s)%nat ∧ replyId = uuidString j.

(** What holds of every state the module can be in: the keys of both
    dictionaries and the ids of the queued blocks are UUIDs drawn
    earlier, and no id is a key of both dictionaries. *)
Record wellFormed (s : ModuleState) : Prop := {
  wf_entries : ∀ k replyId, is_Some (pendingEntry k s replyId) → drawn s replyId;
  wf_queue : ∀ b, b ∈ mainQueue s → drawn s (blockId (block b));
  wf_disjoint : ∀ replyId,
    is_Some (pendingMessageReplies s !! replyId) →
    is_Some (pendingDataReplies s !! replyId) → False
}.

End Reachable.

(** ** A concrete platform

    Base64 as in RFC 4648 (standard alphabet, padding required, nothing
    outside the alphabet accepted), and a UUID source that never repeats.
    The theorems below hold for every codec; these instances are used to
    run the definitions on examples. *)

Module RFC4648.

Definition alphabet : list ascii :=
  String.list_ascii_of_string
    "ABCDEFGHIJKLMNOPQRSTUVWXYZabcdefghijklmnopqrstuvwxyz0123456789+/".

Definition pad : ascii := "="%char.

Definition sextetChar (n : N) : ascii :=
  List.nth (N.to_nat n) alphabet pad.

Definition sextetOf (c : ascii) : option N :=
  let n := N_of_ascii c in
  if (65 <=? n) && (n <=? 90) then Some (n - 65)
  else if (97 <=? n) && (n <=? 122) then Some (n - 97 + 26)
  else if (48 <=? n) && (n <=? 57) then Some (n - 48 + 52)
  else if n =? 43 then Some 62
  else if n =? 47 then Some 63
  else None.

Fixpoint encodeOctets (bs : list N) : list ascii :=
  match bs with
  | [] => []
  | [a] => [sextetChar (a / 4); sextetChar (a mod 4 * 16); pad; pad]
  | [a; b] =>
      [sextetChar (a / 4); sextetChar (a mod 4 * 16 + b / 16);
       sextetChar (b mod 16 * 4); pad]
  | a :: b :: c :: rest =>
      sextetChar (a / 4) :: sextetChar (a mod 4 * 16 + b / 16)
      :: sextetChar (b mod 16 * 4 + c / 64) :: sextetChar (c mod 64)
      :: encodeOctets rest
  end.

Definition isPad (c : ascii) : bool := Ascii.eqb c pad.

Fixpoint decodeSextets (cs : list ascii) : option (list N) :=
  match cs with
  | [] => Some []
  | a :: b :: c :: d :: rest =>
      match sextetOf a, sextetOf b with
      | Some x, Some y =>
          if isPad d then
            match rest with
            | _ :: _ => None
            | [] =>
                if isPad c then Some [x * 4 + y / 16]
                else match sextetOf c with
                     | Some z => Some [x * 4 + y / 16; y mod 16 * 16 + z / 4]
                     | None => None
                     end
            end
          else
            match sextetOf c, sextetOf d, decodeSextets rest with
            | Some z, Some w, Some tl =>
                Some (x * 4 + y / 16 :: y mod 16 * 16 + z / 4
                      :: z mod 4 * 64 + w :: tl)
            | _, _, _ => None
            end
      | _, _ => None
      end
  | _ => None
  end.

Definition encode (d : Data) : string :=
  String.string_of_list_ascii (encodeOctets (List.map Byte.to_N d)).

Definition decode (s : string) : option Data :=
  match decodeSextets (String.list_ascii_of_string s) with
  | Some ns => Some (List.map (λ n, default Byte.x00 (Byte.of_N n)) ns)
  | None => None
  end.

Definition codec : Base64Codec :=
  {| base64EncodedString := encode; dataBase64Encoded := decode |}.

End RFC4648.

(** The k-th UUID is the decimal rendering of k. *)
Definition counterUUIDs : UUIDSource := {| uuidString := pretty |}.

(** * The rest of the module

    The session the module wraps, the state and event payloads it builds
    from it, the asynchronous functions with their guards, the remaining
    dispatchers and delegate callbacks, the Android stub, and the
    TypeScript side that listens to the events. *)

(** ** The session *)

(** [WCSessionActivationState]; a value that is none of the three known
    cases is what [@unknown default] is there for. *)
Inductive WCSessionActivationState : Type :=
  | notActivated
  | inactive
  | activated
  | unknownActivationState (rawValue : Z).

(** What the module reads of [WCSession.default]. *)
Record WCSession : Type := {
  isPaired : bool;
  isWatchAppInstalled : bool;
  isReachable : bool;
  activationState : WCSessionActivationState;
  hasContentPending : bool;
  isComplicationEnabled : bool;
  remainingComplicationUserInfoTransfers : Z;
  watchDirectoryURL : option string
}.

(** [WCSessionUserInfoTransfer], with the hash of its object identifier. *)
Record WCSessionUserInfoTransfer : Type := {
  userInfoTransferObject : Z;
  transferredUserInfo : Dict;
  userInfoIsTransferring : bool;
  isCurrentComplicationInfo : bool
}.

(** [WCSessionFileTransfer]; [fractionCompleted] is the number the module
    boxes into the dictionary as it gets it. *)
Record WCSessionFileTransfer : Type := {
  fileTransferObject : Z;
  fileURL : string;
  fileMetadata : option Dict;
  fractionCompleted : AnyValue;
  fileIsTransferring : bool
}.

(** How a promise of an [AsyncFunction] ends. *)
Inductive Settlement : Type :=
  | Resolved (value : AnyValue)
  | Rejected (code : string) (message : string).

(** The events the module declares in [Events(...)]. *)
Definition declaredEvents : list string :=
  [ "onSessionStateChanged";
    "onReachabilityChanged";
    "onActivationDidComplete";
    "onMessageReceived";
    "onMessageDataReceived";
    "onApplicationContextReceived";
    "onUserInfoReceived";
    "onFileReceived";
    "onFileTransferProgress";
    "onFileTransferCompleted";
    "onUserInfoTransferCompleted" ].

Definition activationStateString (state : WCSessionActivationState) : string :=
  match state with
  | notActivated => "notActivated"
  | inactive => "inactive"
  | activated => "activated"
  | unknownActivationState _ => "notActivated"
  end.

(** [session.activationState == .activated] *)
Definition isActivated (session : WCSession) : bool :=
  match activationState session with
  | activated => true
  | _ => false
  end.

(** [buildSessionState()]; the argument is [self.session], nil where
    [WCSession.isSupported()] is false. *)
Definition buildSessionState (session : option WCSession) : Dict :=
  match session with
  | None =>
      list_to_map
        [ ("isSupported", AnyBool false);
          ("isPaired", AnyBool false);
          ("isWatchAppInstalled", AnyBool false);
          ("isReachable", AnyBool false);
          ("activationState", AnyString "notActivated");
          ("hasContentPending", AnyBool false);
          ("isComplicationEnabled", AnyBool false);
          ("remainingComplicationUserInfoTransfers", AnyNumber 0);
          ("watchDirectoryURL", AnyNull) ]
  | Some session =>
      list_to_map
        [ ("isSupported", AnyBool true);
          ("isPaired", AnyBool (isPaired session));
          ("isWatchAppInstalled", AnyBool (isWatchAppInstalled session));
          ("isReachable", AnyBool (isReachable session));
          ("activationState",
           AnyString (activationStateString (activationState session)));
          ("hasContentPending", AnyBool (hasContentPending session));
          ("isComplicationEnabled", AnyBool (isComplicationEnabled session));
          ("remainingComplicationUserInfoTransfers",
           AnyNumber (remainingComplicationUserInfoTransfers session));
          ("watchDirectoryURL",
           from_option AnyString AnyNull (watchDirectoryURL session)) ]
  end.

(** [ObjectIdentifier(transfer).hashValue.description] *)
Definition objectIdString (hashValue : Z) : string := pretty hashValue.

Definition buildUserInfoTransferInfo (transfer : WCSessionUserInfoTransfer)
  : Dict :=
  list_to_map
    [ ("id", AnyString (objectIdString (userInfoTransferObject transfer)));
      ("userInfo", AnyDict (transferredUserInfo transfer));
      ("isTransferring", AnyBool (userInfoIsTransferring transfer));
      ("isCurrentComplicationInfo", AnyBool (isCurrentComplicationInfo transfer)) ].

Definition buildFileTransferInfo (transfer : WCSessionFileTransfer) : Dict :=
  list_to_map
    [ ("id", AnyString (objectIdString (fileTransferObject transfer)));
      ("url", AnyString (fileURL transfer));
      ("metadata", AnyDict (default ∅ (fileMetadata transfer)));
      ("progress", fractionCompleted transfer);
      ("isTransferring", AnyBool (fileIsTransferring transfer)) ].

(** ** Asynchronous functions

    What the session does with a request is a function argument: the
    reply or the error description it hands to [replyHandler] or
    [errorHandler], or the error [updateApplicationContext] throws. *)

(** [AsyncFunction("activate")] *)
Definition activate (session : option WCSession) : Bridge Settlement :=
  match session with
  | None =>
      ret (Rejected "E_NOT_SUPPORTED"
             "WatchConnectivity is not supported on this device")
  | Some session =>
      perform ActivateSession ;;;
      ret (Resolved (AnyString (activationStateString (activationState session))))
  end.

(** [AsyncFunction("sendMessage")] *)
Definition sendMessage (session : option WCSession)
    (transport : Dict → Dict + string) (message : Dict) : Settlement :=
  match session with
  | None => Rejected "E_NOT_SUPPORTED" "WatchConnectivity is not supported"
  | Some session =>
      if negb (isActivated session)
      then Rejected "E_SESSION_NOT_ACTIVATED" "Session is not activated"
      else if negb (isReachable session)
      then Rejected "E_NOT_REACHABLE" "Watch is not reachable"
      else match transport message with
           | inl reply => Resolved (AnyDict reply)
           | inr error => Rejected "E_SEND_FAILED" error
           end
  end.

(** [AsyncFunction("sendMessageData")] *)
Definition sendMessageData {codec : Base64Codec} (session : option WCSession)
    (transport : Data → Data + string) (base64Data : string) : Settlement :=
  match session with
  | None => Rejected "E_NOT_SUPPORTED" "WatchConnectivity is not supported"
  | Some session =>
      if negb (isActivated session)
      then Rejected "E_SESSION_NOT_ACTIVATED" "Session is not activated"
      else if negb (isReachable session)
      then Rejected "E_NOT_REACHABLE" "Watch is not reachable"
      else match dataBase64Encoded base64Data with
           | None => Rejected "E_INVALID_DATA" "Invalid base64 data"
           | Some data =>
               match transport data with
               | inl replyData =>
                   Resolved (AnyString (base64EncodedString replyData))
               | inr error => Rejected "E_SEND_FAILED" error
               end
           end
  end.

(** [AsyncFunction("updateApplicationContext")]; [update] is the
    session's throwing [updateApplicationContext], with the description
    of the error it throws. *)
Definition updateApplicationContext (session : option WCSession)
    (update : Dict → option string) (context : Dict) : Settlement :=
  match session with
  | None => Rejected "E_NOT_SUPPORTED" "WatchConnectivity is not supported"
  | Some session =>
      if negb (isActivated session)
      then Rejected "E_SESSION_NOT_ACTIVATED" "Session is not activated"
      else match update context with
           | None => Resolved AnyNull
           | Some error => Rejected "E_UPDATE_FAILED" error
           end
  end.

(** ** Transfers *)

(** [Function("transferUserInfo")]; [queue] is the session's
    [transferUserInfo], absent with the session. *)
Definition transferUserInfo
    (queue : option (Dict → WCSessionUserInfoTransfer)) (userInfo : Dict)
  : Dict :=
  match queue with
  | None =>
      list_to_map
        [ ("id", AnyString "");
          ("userInfo", AnyDict userInfo);
          ("isTransferring", AnyBool false);
          ("isCurrentComplicationInfo", AnyBool false) ]
  | Some queue => buildUserInfoTransferInfo (queue userInfo)
  end.

(** [Function("transferCurrentComplicationUserInfo")] *)
Definition transferCurrentComplicationUserInfo
    (queue : option (Dict → WCSessionUserInfoTransfer)) (userInfo : Dict)
  : Dict :=
  match queue with
  | None =>
      list_to_map
        [ ("id", AnyString "");
          ("userInfo", AnyDict userInfo);
          ("isTransferring", AnyBool false);
          ("isCurrentComplicationInfo", AnyBool true) ]
  | Some queue => buildUserInfoTransferInfo (queue userInfo)
  end.

(** [Function("transferFile")]; [fileExists] is
    [FileManager.default.fileExists(atPath:)], [start] the session's
    [transferFile], absent with the session. *)
Definition transferFile (fileExists : string → bool)
    (start : option (string → option Dict → WCSessionFileTransfer))
    (url : string) (metadata : option Dict) : Dict :=
  if negb (fileExists url) then
    list_to_map
      [ ("id", AnyString ""); ("url", AnyString url); ("progress", AnyNumber 0);
        ("isTransferring", AnyBool false); ("error", AnyString "File not found") ]
  else
    match start with
    | None =>
        list_to_map
          [ ("id", AnyString ""); ("url", AnyString url);
            ("progress", AnyNumber 0); ("isTransferring", AnyBool false) ]
    | Some start => buildFileTransferInfo (start url metadata)
    end.

(** ** The other dispatchers *)

Definition dispatchReachabilityChanged (reachable : bool) : Bridge unit :=
  sendEvent "onReachabilityChanged" {[ "isReachable" := AnyBool reachable ]}.

Definition dispatchActivationDidComplete (state : WCSessionActivationState)
    (error : option string) : Bridge unit :=
  let payload : Dict :=
    {[ "activationState" := AnyString (activationStateString state) ]} in
  let payload :=
    match error with
    | Some description => <["error" := AnyString description]> payload
    | None => payload
    end in
  sendEvent "onActivationDidComplete" payload.

Definition dispatchApplicationContextReceived (context : Dict) : Bridge unit :=
  sendEvent "onApplicationContextReceived"
    {[ "applicationContext" := AnyDict context ]}.

Definition dispatchUserInfoReceived (userInfo : Dict) : Bridge unit :=
  sendEvent "onUserInfoReceived" {[ "userInfo" := AnyDict userInfo ]}.

Definition dispatchFileReceived (url : string) (metadata : option Dict)
  : Bridge unit :=
  let payload : Dict := {[ "url" := AnyString url ]} in
  let payload :=
    match metadata with
    | Some metadata => <["metadata" := AnyDict metadata]> payload
    | None => payload
    end in
  sendEvent "onFileReceived" payload.

Definition dispatchFileTransferProgress (transfer : WCSessionFileTransfer)
  : Bridge unit :=
  sendEvent "onFileTransferProgress" (buildFileTransferInfo transfer).

Definition dispatchFileTransferCompleted (transfer : WCSessionFileTransfer)
    (error : option string) : Bridge unit :=
  let payload := buildFileTransferInfo transfer in
  let payload :=
    match error with
    | Some description => <["error" := AnyString description]> payload
    | None => payload
    end in
  sendEvent "onFileTransferCompleted" payload.

Definition dispatchUserInfoTransferCompleted
    (transfer : WCSessionUserInfoTransfer) (error : option string)
  : Bridge unit :=
  let payload := buildUserInfoTransferInfo transfer in
  let payload :=
    match error with
    | Some description => <["error" := AnyString description]> payload
    | None => payload
    end in
  sendEvent "onUserInfoTransferCompleted" payload.

(** ** Every callback of WatchSessionDelegate

    [module] is the session the module sees ([self.session]), [session]
    the one the callback is about. *)

Inductive SessionCallback : Type :=
  | ActivationDidCompleteWith (state : WCSessionActivationState)
      (error : option string)
  | DidBecomeInactive
  | DidDeactivate
  | ReachabilityDidChange (session : WCSession)
  | WatchStateDidChange
  | DidReceiveMessageFrom (message : Dict)
      (replyHandler : option MessageReplyHandler)
  | DidReceiveMessageDataFrom (messageData : Data)
      (replyHandler : option DataReplyHandler)
  | DidReceiveApplicationContext (applicationContext : Dict)
  | DidReceiveUserInfo (userInfo : Dict)
  | DidFinishUserInfoTransfer (transfer : WCSessionUserInfoTransfer)
      (error : option string)
  | DidReceiveFile (url : string) (metadata : option Dict)
  | DidFinishFileTransfer (transfer : WCSessionFileTransfer)
      (error : option string).

Definition delegate {codec : Base64Codec} {uuids : UUIDSource}
    (module : option WCSession) (callback : SessionCallback) : Bridge unit :=
  match callback with
  | ActivationDidCompleteWith state error =>
      dispatchActivationDidComplete state error ;;;
      dispatchSessionStateChanged (buildSessionState module)
  | DidBecomeInactive => sessionDidBecomeInactive (buildSessionState module)
  | DidDeactivate => sessionDidDeactivate (buildSessionState module)
  | ReachabilityDidChange session =>
      dispatchReachabilityChanged (isReachable session) ;;;
      dispatchSessionStateChanged (buildSessionState module)
  | WatchStateDidChange => dispatchSessionStateChanged (buildSessionState module)
  | DidReceiveMessageFrom message replyHandler =>
      dispatchMessageReceived message replyHandler ;;; ret tt
  | DidReceiveMessageDataFrom messageData replyHandler =>
      dispatchMessageDataReceived messageData replyHandler ;;; ret tt
  | DidReceiveApplicationContext applicationContext =>
      dispatchApplicationContextReceived applicationContext
  | DidReceiveUserInfo userInfo => dispatchUserInfoReceived userInfo
  | DidFinishUserInfoTransfer transfer error =>
      dispatchUserInfoTransferCompleted transfer error
  | DidReceiveFile url metadata => dispatchFileReceived url metadata
  | DidFinishFileTransfer transfer error =>
      dispatchFileTransferCompleted transfer error
  end.

(** What can happen to the module, every delegate callback included. *)
Inductive Occurrence : Type :=
  | FromSession (module : option WCSession) (callback : SessionCallback)
  | FromBridge (c : Call).

Definition occur {codec : Base64Codec} {uuids : UUIDSource} (o : Occurrence)
  : Bridge unit :=
  match o with
  | FromSession module callback => delegate module callback
  | FromBridge c => call c
  end.

Fixpoint history {codec : Base64Codec} {uuids : UUIDSource}
    (os : list Occurrence) (s : ModuleState) : ModuleState :=
  match os with
  | [] => s
  | o :: os => history os (exec (occur o) s)
  end.

Definition eventNames (es : list Effect) : list string :=
  omap (λ e, match e with SendEvent name _ => Some name | _ => None end) es.

(** The reply handlers called so far. *)
Definition isInvocation (e : Effect) : bool :=
  match e with
  | InvokeMessageReply _ _ | InvokeDataReply _ _ => true
  | _ => false
  end.

Definition invocations (es : list Effect) : nat :=
  length (List.filter isInvocation es).

(** ** The Android stub

    The Kotlin module of the same name: every function answers without a
    session. *)

Module Android.

Definition declaredEvents : list string :=
  [ "onSessionStateChanged";
    "onReachabilityChanged";
    "onActivationDidComplete";
    "onMessageReceived";
    "onMessageDataReceived";
    "onApplicationContextReceived";
    "onUserInfoReceived";
    "onFileReceived";
    "onFileTransferProgress";
    "onFileTransferCompleted";
    "onUserInfoTransferCompleted" ].

Definition getSessionState : Dict :=
  list_to_map
    [ ("isSupported", AnyBool false);
      ("isPaired", AnyBool false);
      ("isWatchAppInstalled", AnyBool false);
      ("isReachable", AnyBool false);
      ("activationState", AnyString "notActivated");
      ("hasContentPending", AnyBool false);
      ("isComplicationEnabled", AnyBool false);
      ("remainingComplicationUserInfoTransfers", AnyNumber 0);
      ("watchDirectoryURL", AnyNull) ].

Definition getApplicationContext : Dict := ∅.
Definition getReceivedApplicationContext : Dict := ∅.
Definition isSupported : bool := false.

(** [throw PlatformNotSupportedException()] rejects the promise with the
    code and message of the exception. *)
Definition platformNotSupported : Settlement :=
  Rejected "E_NOT_SUPPORTED"
    "WatchConnectivity is only available on iOS. Use Wear OS APIs for Android watch communication.".

Definition activate : Settlement := platformNotSupported.
Definition sendMessage (message : Dict) : Settlement := platformNotSupported.
Definition sendMessageData (base64Data : string) : Settlement :=
  platformNotSupported.
Definition updateApplicationContext (context : Dict) : Settlement :=
  platformNotSupported.

Definition replyToMessage (replyId : string) (reply : Dict) : Bridge unit :=
  ret tt.
Definition replyToMessageData (replyId : string) (base64Data : string)
  : Bridge unit :=
  ret tt.

Definition transferUserInfo (userInfo : Dict) : Dict :=
  list_to_map
    [ ("id", AnyString "");
      ("userInfo", AnyDict userInfo);
      ("isTransferring", AnyBool false);
      ("isCurrentComplicationInfo", AnyBool false);
      ("error", AnyString "WatchConnectivity is not supported on Android") ].

Definition transferCurrentComplicationUserInfo (userInfo : Dict) : Dict :=
  list_to_map
    [ ("id", AnyString "");
      ("userInfo", AnyDict userInfo);
      ("isTransferring", AnyBool false);
      ("isCurrentComplicationInfo", AnyBool true);
      ("error", AnyString "WatchConnectivity is not supported on Android") ].

Definition transferFile (url : string) (metadata : option Dict) : Dict :=
  list_to_map
    [ ("id", AnyString "");
      ("url", AnyString url);
      ("progress", AnyNumber 0);
      ("isTransferring", AnyBool false);
      ("error", AnyString "WatchConnectivity is not supported on Android") ].

Definition getOutstandingUserInfoTransfers : list Dict := [].
Definition getOutstandingFileTransfers : list Dict := [].

End Android.

(** ** The TypeScript side *)

Module Wrapper.

(** The event each [add...Listener] of [WatchConnectivity] subscribes to,
    in the order of the source. *)
Definition listenerEvents : list (string * string) :=
  [ ("addSessionStateListener", "onSessionStateChanged");
    ("addReachabilityListener", "onReachabilityChanged");
    ("addActivationListener", "onActivationDidComplete");
    ("addMessageListener", "onMessageReceived");
    ("addMessageDataListener", "onMessageDataReceived");
    ("addApplicationContextListener", "onApplicationContextReceived");
    ("addUserInfoListener", "onUserInfoReceived");
    ("addFileListener", "onFileReceived");
    ("addFileTransferProgressListener", "onFileTransferProgress");
    ("addFileTransferCompletedListener", "onFileTransferCompleted");
    ("addUserInfoTransferCompletedListener", "onUserInfoTransferCompleted") ].

End Wrapper.

(** The hook [useWatchConnectivity]: its three pieces of React state, what
    its listeners do with an event, and the result it returns. *)
Module Hook.

Record State : Type := {
  sessionState : option Dict;
  isActivated : bool;
  error : option string
}.

(** [useState(null)], [useState(false)], [useState(null)] *)
Definition initial : State :=
  {| sessionState := None; isActivated := false; error := None |}.

(** The object the hook sets when [WatchConnectivity.isSupported] is
    false. *)
Definition unsupportedState : Dict :=
  list_to_map
    [ ("isSupported", AnyBool false);
      ("isPaired", AnyBool false);
      ("isWatchAppInstalled", AnyBool false);
      ("isReachable", AnyBool false);
      ("activationState", AnyString "notActivated");
      ("hasContentPending", AnyBool false);
      ("isComplicationEnabled", AnyBool false);
      ("remainingComplicationUserInfoTransfers", AnyNumber 0);
      ("watchDirectoryURL", AnyNull) ].

(** The events the hook subscribes to when the module is supported. *)
Definition subscribedEvents : list string :=
  [ "onSessionStateChanged";
    "onReachabilityChanged";
    "onActivationDidComplete";
    "onMessageReceived";
    "onApplicationContextReceived";
    "onUserInfoReceived";
    "onFileReceived" ].

(** The effect that runs on mount: the state it sets, whether it calls
    [activate()], and the events it subscribes to. *)
Definition mount (isSupported : bool) (autoActivate : bool) (h : State)
  : State * bool * list string :=
  if negb isSupported then
    ({| sessionState := Some unsupportedState;
        isActivated := isActivated h;
        error := error h |}, false, [])
  else (h, autoActivate, subscribedEvents).

(** [activate]: [setError(null)], then the outcome of
    [WatchConnectivity.activate()]; [native] is what
    [WatchConnectivity.sessionState] returns afterwards. *)
Definition activated (outcome : Settlement) (native : Dict) (h : State) : State :=
  match outcome with
  | Resolved _ =>
      {| sessionState := Some native; isActivated := true; error := None |}
  | Rejected _ message =>
      {| sessionState := sessionState h;
         isActivated := isActivated h;
         error := Some message |}
  end.

(** JavaScript's [if (event.error)], for the values the module puts
    there: a string counts unless it is empty. *)
Definition truthyString (v : option AnyValue) : option string :=
  match v with
  | Some (AnyString s) => if decide (s = "") then None else Some s
  | _ => None
  end.

(** What the hook's listeners do with an event of the module; [native] is
    what [WatchConnectivity.sessionState] returns at that time. *)
Definition onEvent (native : Dict) (name : string) (event : Dict) (h : State)
  : State :=
  if decide (name = "onSessionStateChanged") then
    {| sessionState := Some event; isActivated := isActivated h; error := error h |}
  else if decide (name = "onReachabilityChanged") then
    {| sessionState := Some native; isActivated := isActivated h; error := error h |}
  else if decide (name = "onActivationDidComplete") then
    {| sessionState := sessionState h;
       isActivated := match event !! "activationState" with
                      | Some (AnyString state) => bool_decide (state = "activated")
                      | _ => false
                      end;
       error := match truthyString (event !! "error") with
                | Some message => Some message
                | None => error h
                end |}
  else h.

(** The hook receives, in order, the events the module sent. *)
Fixpoint deliver (native : Dict) (es : list Effect) (h : State) : State :=
  match es with
  | [] => h
  | SendEvent name event :: es => deliver native es (onEvent native name event h)
  | _ :: es => deliver native es h
  end.

(** [sessionState?.field ?? false] *)
Definition flag (field : string) (h : State) : AnyValue :=
  match sessionState h with
  | None => AnyBool false
  | Some state =>
      match state !! field with
      | None | Some AnyNull => AnyBool false
      | Some v => v
      end
  end.

End Hook.

(** The example screen. *)
Module Screen.

(** A line of the log; [time] is [new Date().toLocaleTimeString()]. *)
Definition logLine (time : string) (message : string) : string :=
  "[" +:+ time +:+ "] " +:+ message.

(** [addLog]: the new line first, then the first 49 of the old ones. *)
Definition addLog (time : string) (message : string) (prev : list string)
  : list string :=
  logLine time message :: take 49 prev.

(** The log after the given (time, message) pairs were added to [prev],
    in that order. *)
Definition logAfter (entries : list (string * string)) (prev : list string)
  : list string :=
  fold_left (λ log entry, addLog entry.1 entry.2 log) entries prev.

(** The bridge call [handleMessage] makes for an event: a reply when
    [event.replyId] is there (and not the empty string); [timestamp] is
    [Date.now()]. *)
Definition autoReply (timestamp : Z) (event : Dict) : option (string * Dict) :=
  match Hook.truthyString (event !! "replyId") with
  | Some replyId =>
      Some (replyId,
            list_to_map [ ("status", AnyString "received");
                          ("timestamp", AnyNumber timestamp) ])
  | None => None
  end.

(** The module sends [onMessageReceived]; the screen's [handleMessage]
    runs and calls [replyToMessage] if it has a reason to. *)
Definition receiveAndAutoReply {codec : Base64Codec} {uuids : UUIDSource}
    (timestamp : Z) (message : Dict) (replyHandler : option MessageReplyHandler)
  : Bridge bool :=
  let* event := dispatchMessageReceived message replyHandler in
  match autoReply timestamp event with
  | Some (replyId, reply) => replyToMessage replyId reply
  | None => ret false
  end.

End Screen.

(** The example watch app, as far as it answers messages. *)
Module Watch.

(** [handleMessageWithReply]; [timestamp] is
    [Date().timeIntervalSince1970]. *)
Definition handleMessageWithReply (timestamp : AnyValue) (message : Dict)
  : Dict :=
  match message !! "action" with
  | Some (AnyString action) =>
      if decide (action = "ping") then
        list_to_map [ ("status", AnyString "pong"); ("timestamp", timestamp) ]
      else if decide (action = "getData") then
        {[ "data" := AnyString "Hello from Watch!" ]}
      else {[ "status" := AnyString "unknown_action" ]}
  | _ => {[ "status" := AnyString "ok" ]}
  end.

(** The delegate's [didReceiveMessage] with a reply handler: the reply it
    hands to [replyHandler]. *)
Definition didReceiveMessage (timestamp : AnyValue) (message : Dict) : Dict :=
  handleMessageWithReply timestamp message.

End Watch.

(** ** The main queue running late

    [DispatchQueue.main.asyncAfter(deadline:)] promises that a block does
    not run before its deadline, not that it runs at it: the main queue
    runs a block when it gets to it.  Here time can pass without any
    block being run, and the main queue can run any block that is
    waiting and due, one at a time. *)

(** Time passes and the main queue is busy with other work. *)
Definition timePasses (dt : N) : Bridge unit := λ s,
  (tt, {| pendingMessageReplies := pendingMessageReplies s;
          pendingDataReplies := pendingDataReplies s;
          mainQueue := mainQueue s;
          now := now s + dt;
          uuidsDrawn := uuidsDrawn s;
          effects := effects s |}).

(** The main queue runs the block waiting at position [i], when there is
    one and it is due. *)
Definition mainQueueRuns (i : nat) : Bridge unit := λ s,
  match mainQueue s !! i with
  | Some b =>
      if decide (fireAt b ≤ now s) then
        runBlock (block b)
          {| pendingMessageReplies := pendingMessageReplies s;
             pendingDataReplies := pendingDataReplies s;
             mainQueue := delete i (mainQueue s);
             now := now s;
             uuidsDrawn := uuidsDrawn s;
             effects := effects s |}
      else (tt, s)
  | None => (tt, s)
  end.

(** What can happen to the module when the main queue may be late. *)
Inductive Move : Type :=
  | Occurs (o : Occurrence)
  | TimePasses (dt : N)
  | MainQueueRuns (i : nat).

Definition move {codec : Base64Codec} {uuids : UUIDSource} (m : Move)
  : Bridge unit :=
  match m with
  | Occurs o => occur o
  | TimePasses dt => timePasses dt
  | MainQueueRuns i => mainQueueRuns i
  end.

Fixpoint moves {codec : Base64Codec} {uuids : UUIDSource}
    (ms : list Move) (s : ModuleState) : ModuleState :=
  match ms with
  | [] => s
  | m :: ms => moves ms (exec (move m) s)
  end.

(** [m] is a reply of kind [k] to [replyId]. *)
Definition moveRepliesTo (m : Move) (k : Kind) (replyId : string) : Prop :=
  match m with
  | Occurs (FromBridge c) => repliesTo c k replyId
  | _ => False
  end.

(** Every pending reply has its expiry block waiting on the main queue,
    due at most 30 seconds from now. *)
Definition expiryQueued (s : ModuleState) : Prop :=
  ∀ k replyId v,
    pendingEntry k s replyId = Some v →
    ∃ b, b ∈ mainQueue s
         ∧ block b = expiryOf k replyId
         ∧ fireAt b ≤ now s + replyExpiry.

(** No block on the main queue is overdue: the main queue has run every
    block that was due. *)
Definition punctual (s : ModuleState) : Prop :=
  ∀ b, b ∈ mainQueue s → now s < fireAt b.

(** The blocks of [q] that are expiry blocks of the entry of kind [k]
    under [replyId]. *)
Definition expiryBlocksOf (k : Kind) (replyId : string) (q : list DelayedBlock)
  : list DelayedBlock :=
  filter (λ b, block b = expiryOf k replyId) q.

(** A reply to [replyId] of the kind of the handler [v] reaches [v]. *)
Definition replyDelivered {codec : Base64Codec}
    (v : MessageReplyHandler + DataReplyHandler) (replyId : string)
    (s : ModuleState) : Prop :=
  match v with
  | inl handler =>
      ∀ reply,
        result (replyToMessage replyId reply) s = true
        ∧ effects (exec (replyToMessage replyId reply) s)
          = effects s ++ [InvokeMessageReply handler reply]
  | inr handler =>
      ∀ base64Data data,
        dataBase64Encoded base64Data = Some data →
        result (replyToMessageData replyId base64Data) s = true
        ∧ effects (exec (replyToMessageData replyId base64Data) s)
          = effects s ++ [InvokeDataReply handler data]
  end.

(** A reply of kind [k] to [replyId] finds no entry: it returns at the
    [if let] and changes nothing. *)
Definition replyFindsNothing {codec : Base64Codec}
    (k : Kind) (replyId : string) (s : ModuleState) : Prop :=
  match k with
  | Structured => ∀ reply, replyToMessage replyId reply s = (false, s)
  | RawBytes =>
      ∀ base64Data, replyToMessageData replyId base64Data s = (false, s)
  end.

(** What a move does to the state: it is a call of the first part, or
    it leaves dictionaries and queue alone, or it is the main queue
    running a block that is due. *)
Inductive MoveKind {codec : Base64Codec} {uuids : UUIDSource}
    (m : Move) (s : ModuleState) : Prop :=
  | IsCall c :
      exec (move m) s = exec (call c) s →
      (∀ k Y, repliesTo c k Y → moveRepliesTo m k Y) →
      MoveKind m s
  | IsQuiet dt es :
      exec (move m) s =
        {| pendingMessageReplies := pendingMessageReplies s;
           pendingDataReplies := pendingDataReplies s;
           mainQueue := mainQueue s;
           now := now s + dt;
           uuidsDrawn := uuidsDrawn s;
           effects := effects s ++ es |} →
      MoveKind m s
  | IsBlock i b :
      mainQueue s !! i = Some b →
      fireAt b ≤ now s →
      exec (move m) s =
        exec (runBlock (block b))
          {| pendingMessageReplies := pendingMessageReplies s;
             pendingDataReplies := pendingDataReplies s;
             mainQueue := delete i (mainQueue s);
             now := now s;
             uuidsDrawn := uuidsDrawn s;
             effects := effects s |} →
      MoveKind m s.

(** ** More notions used in the statements *)

(** Handlers called plus handlers still stored are no more than the
    UUIDs drawn, that is, than the registrations made. *)
Definition accounted (s : ModuleState) : Prop :=
  (invocations (effects s)
   + size (pendingMessageReplies s) + size (pendingDataReplies s)
   ≤ uuidsDrawn s)%nat.

(** The effects a computation adds to those of [s]. *)
Definition emitted {A} (m : Bridge A) (s : ModuleState) : list Effect :=
  drop (length (effects s)) (effects (exec m s)).

(** The keys of [SessionState] in the TypeScript types. *)
Definition sessionStateKeys : gset string :=
  list_to_set
    [ "isSupported"; "isPaired"; "isWatchAppInstalled"; "isReachable";
      "activationState"; "hasContentPending"; "isComplicationEnabled";
      "remainingComplicationUserInfoTransfers"; "watchDirectoryURL" ].

(** The values of [ActivationState] in the TypeScript types. *)
Definition activationStates : list string :=
  [ "notActivated"; "inactive"; "activated" ].

(** A session to run the definitions on: paired, activated, reachable. *)
Definition pairedWatch : WCSession :=
  {| isPaired := true;
     isWatchAppInstalled := true;
     isReachable := true;
     activationState := activated;
     hasContentPending := false;
     isComplicationEnabled := false;
     remainingComplicationUserInfoTransfers := 50;
     watchDirectoryURL := Some "file:///watch/" |}.

(** A watch that answers every message with an acknowledgement. *)
Definition acknowledging (message : Dict) : Dict + string :=
  inl {[ "ack" := AnyBool true ]}.

(** * Properties *)

(** ** Replying *)

Section Replying.
Context {codec : Base64Codec} {uuids : UUIDSource}.

#[local] Ltac run_bridge :=
  unfold replyToMessage, replyToMessageData, dispatchMessageReceived,
    dispatchMessageDataReceived, didReceiveMessage, didReceiveMessageWithReply,
    didReceiveMessageData, didReceiveMessageDataWithReply, runBlock,
    sendEvent, exec, result, bind, ret, removeMessageReply, removeDataReply,
    removeValue, setMessageReply, setDataReply, asyncAfter, perform, newUUID;
  simpl.

Lemma replyToMessage_found s replyId reply handler :
  pendingMessageReplies s !! replyId = Some handler →
  replyToMessage replyId reply s =
    (true,
     {| pendingMessageReplies := delete replyId (pendingMessageReplies s);
        pendingDataReplies := pendingDataReplies s;
        mainQueue := mainQueue s;
        now := now s;
        uuidsDrawn := uuidsDrawn s;
        effects := effects s ++ [InvokeMessageReply handler reply] |}).
Proof. intros Hp. run_bridge. by rewrite Hp. Qed.

Lemma replyToMessageData_found s replyId base64Data data handler :
  dataBase64Encoded base64Data = Some data →
  pendingDataReplies s !! replyId = Some handler →
  replyToMessageData replyId base64Data s =
    (true,
     {| pendingMessageReplies := pendingMessageReplies s;
        pendingDataReplies := delete replyId (pendingDataReplies s);
        mainQueue := mainQueue s;
        now := now s;
        uuidsDrawn := uuidsDrawn s;
        effects := effects s ++ [InvokeDataReply handler data] |}).
Proof. intros Hd Hp. run_bridge. by rewrite Hd, Hp. Qed.

Lemma replyToMessage_absent s replyId reply :
  pendingMessageReplies s !! replyId = None →
  replyToMessage replyId reply s = (false, s).
Proof.
  intros Hp. run_bridge. rewrite Hp. simpl.
  rewrite delete_id by done. by destruct s.
Qed.

Lemma replyToMessageData_invalid s replyId base64Data :
  dataBase64Encoded base64Data = None →
  replyToMessageData replyId base64Data s = (false, s).
Proof. intros Hd. run_bridge. by rewrite Hd. Qed.

Lemma replyToMessageData_absent s replyId base64Data :
  pendingDataReplies s !! replyId = None →
  replyToMessageData replyId base64Data s = (false, s).
Proof.
  intros Hp. run_bridge. destruct (dataBase64Encoded base64Data); [|done].
  rewrite Hp. simpl. rewrite delete_id by done. by destruct s.
Qed.

(** C1: a reply to an entry that is still pending removes the entry,
    invokes the stored handler exactly once with the payload, and finds
    the entry (true); this holds in every state, for both kinds, and in
    particular right after the registration that returned the id. *)
Theorem reply_to_pending_entry (s : ModuleState) (replyId : string) :
  (∀ handler reply,
      pendingMessageReplies s !! replyId = Some handler →
      replyToMessage replyId reply s =
        (true,
         {| pendingMessageReplies := delete replyId (pendingMessageReplies s);
            pendingDataReplies := pendingDataReplies s;
            mainQueue := mainQueue s;
            now := now s;
            uuidsDrawn := uuidsDrawn s;
            effects := effects s ++ [InvokeMessageReply handler reply] |}))
  ∧ (∀ handler base64Data data,
      dataBase64Encoded base64Data = Some data →
      pendingDataReplies s !! replyId = Some handler →
      replyToMessageData replyId base64Data s =
        (true,
         {| pendingMessageReplies := pendingMessageReplies s;
            pendingDataReplies := delete replyId (pendingDataReplies s);
            mainQueue := mainQueue s;
            now := now s;
            uuidsDrawn := uuidsDrawn s;
            effects := effects s ++ [InvokeDataReply handler data] |}))
  ∧ (∀ message handler reply,
      let payload := result (dispatchMessageReceived message (Some handler)) s in
      let s1 := exec (dispatchMessageReceived message (Some handler)) s in
      ∃ id,
        payload !! "replyId" = Some (AnyString id)
        ∧ result (replyToMessage id reply) s1 = true
        ∧ effects (exec (replyToMessage id reply) s1)
          = effects s1 ++ [InvokeMessageReply handler reply]
        ∧ pendingMessageReplies (exec (replyToMessage id reply) s1) !! id = None)
  ∧ (∀ received handler base64Data data,
      dataBase64Encoded base64Data = Some data →
      let payload := result (dispatchMessageDataReceived received (Some handler)) s in
      let s1 := exec (dispatchMessageDataReceived received (Some handler)) s in
      ∃ id,
        payload !! "replyId" = Some (AnyString id)
        ∧ result (replyToMessageData id base64Data) s1 = true
        ∧ effects (exec (replyToMessageData id base64Data) s1)
          = effects s1 ++ [InvokeDataReply handler data]
        ∧ pendingDataReplies (exec (replyToMessageData id base64Data) s1) !! id = None).
Proof.
  split; [|split; [|split]].
  - intros handler reply Hp. by apply replyToMessage_found.
  - intros handler base64Data data Hd Hp. by apply replyToMessageData_found.
  - intros message handler reply payload s1.
    exists (uuidString (uuidsDrawn s)).
    assert (Hp : pendingMessageReplies s1 !! uuidString (uuidsDrawn s)
                 = Some handler).
    { subst s1. run_bridge. apply lookup_insert_eq. }
    split; [subst payload; run_bridge; apply lookup_insert_eq|].
    unfold exec, result.
    rewrite (replyToMessage_found _ _ _ _ Hp). simpl.
    split; [done|]. split; [done|]. apply lookup_delete_eq.
  - intros received handler base64Data data Hd payload s1.
    exists (uuidString (uuidsDrawn s)).
    assert (Hp : pendingDataReplies s1 !! uuidString (uuidsDrawn s)
                 = Some handler).
    { subst s1. run_bridge. apply lookup_insert_eq. }
    split; [subst payload; run_bridge; apply lookup_insert_eq|].
    unfold exec, result.
    rewrite (replyToMessageData_found _ _ _ _ _ Hd Hp). simpl.
    split; [done|]. split; [done|]. apply lookup_delete_eq.
Qed.

(** C2: a reply to an id that has no entry (never registered, already
    consumed, or expired) finds nothing (false), invokes no handler and
    leaves the state as it was; of two replies to a pending id the first
    consumes the entry and invokes its handler once, the second finds
    nothing and changes nothing. *)
Theorem reply_to_absent_entry (s : ModuleState) (replyId : string) :
  (∀ reply,
      pendingMessageReplies s !! replyId = None →
      replyToMessage replyId reply s = (false, s))
  ∧ (∀ base64Data,
      pendingDataReplies s !! replyId = None →
      replyToMessageData replyId base64Data s = (false, s))
  ∧ (∀ handler reply reply',
      pendingMessageReplies s !! replyId = Some handler →
      let s1 := exec (replyToMessage replyId reply) s in
      result (replyToMessage replyId reply) s = true
      ∧ effects s1 = effects s ++ [InvokeMessageReply handler reply]
      ∧ replyToMessage replyId reply' s1 = (false, s1))
  ∧ (∀ handler base64Data data base64Data',
      dataBase64Encoded base64Data = Some data →
      pendingDataReplies s !! replyId = Some handler →
      let s1 := exec (replyToMessageData replyId base64Data) s in
      result (replyToMessageData replyId base64Data) s = true
      ∧ effects s1 = effects s ++ [InvokeDataReply handler data]
      ∧ replyToMessageData replyId base64Data' s1 = (false, s1)).
Proof.
  split; [|split; [|split]].
  - intros reply Hp. by apply replyToMessage_absent.
  - intros base64Data Hp. by apply replyToMessageData_absent.
  - intros handler reply reply' Hp s1. subst s1. unfold exec, result.
    rewrite (replyToMessage_found _ _ _ _ Hp). simpl.
    split; [done|]. split; [done|].
    apply replyToMessage_absent. simpl. apply lookup_delete_eq.
  - intros handler base64Data data base64Data' Hd Hp s1. subst s1.
    unfold exec, result.
    rewrite (replyToMessageData_found _ _ _ _ _ Hd Hp). simpl.
    split; [done|]. split; [done|].
    apply replyToMessageData_absent. simpl. apply lookup_delete_eq.
Qed.

(** C9: [replyToMessageData] with a string that is not valid base64
    returns at the guard: no handler is invoked and the pending data
    entry stays; a later call with valid base64 still delivers the
    decoded bytes to that entry's handler. *)
Theorem invalid_base64_keeps_entry
    (s : ModuleState) (replyId : string) (handler : DataReplyHandler)
    (bad good : string) (data : Data) :
  pendingDataReplies s !! replyId = Some handler →
  dataBase64Encoded bad = None →
  dataBase64Encoded good = Some data →
  let s1 := exec (replyToMessageData replyId bad) s in
  replyToMessageData replyId bad s = (false, s)
  ∧ effects s1 = effects s
  ∧ pendingDataReplies s1 !! replyId = Some handler
  ∧ replyToMessageData replyId good s1 =
      (true,
       {| pendingMessageReplies := pendingMessageReplies s;
          pendingDataReplies := delete replyId (pendingDataReplies s);
          mainQueue := mainQueue s;
          now := now s;
          uuidsDrawn := uuidsDrawn s;
          effects := effects s ++ [InvokeDataReply handler data] |}).
Proof.
  intros Hp Hbad Hgood s1. subst s1. unfold exec.
  rewrite (replyToMessageData_invalid _ _ _ Hbad). simpl.
  split; [done|]. split; [done|]. split; [done|].
  by apply replyToMessageData_found.
Qed.

End Replying.

(** ** Expiry blocks and the main queue *)

Section MainQueue.
Context {codec : Base64Codec} {uuids : UUIDSource}.

Lemma runBlock_frame b s :
  mainQueue (exec (runBlock b) s) = mainQueue s
  ∧ now (exec (runBlock b) s) = now s
  ∧ uuidsDrawn (exec (runBlock b) s) = uuidsDrawn s
  ∧ effects (exec (runBlock b) s) = effects s.
Proof. by destruct b. Qed.

Lemma runBlock_message b s Y :
  pendingMessageReplies (exec (runBlock b) s) !! Y =
    if decide (b = ExpireMessageReply Y) then None
    else pendingMessageReplies s !! Y.
Proof.
  case_decide as Hd; [subst b; apply lookup_delete_eq|].
  destruct b as [X|X]; [|done].
  apply lookup_delete_ne. congruence.
Qed.

Lemma runBlock_data b s Y :
  pendingDataReplies (exec (runBlock b) s) !! Y =
    if decide (b = ExpireDataReply Y) then None
    else pendingDataReplies s !! Y.
Proof.
  case_decide as Hd; [subst b; apply lookup_delete_eq|].
  destruct b as [X|X]; [done|].
  apply lookup_delete_ne. congruence.
Qed.

Lemma runBlocks_cons b bs s :
  exec (runBlocks (b :: bs)) s = exec (runBlocks bs) (exec (runBlock (block b)) s).
Proof. unfold exec. simpl. unfold bind. by destruct (runBlock (block b) s). Qed.

Lemma runBlocks_frame bs s :
  mainQueue (exec (runBlocks bs) s) = mainQueue s
  ∧ now (exec (runBlocks bs) s) = now s
  ∧ uuidsDrawn (exec (runBlocks bs) s) = uuidsDrawn s
  ∧ effects (exec (runBlocks bs) s) = effects s.
Proof.
  revert s. induction bs as [|b bs IH]; intros s; [done|].
  rewrite runBlocks_cons.
  destruct (IH (exec (runBlock (block b)) s)) as (-> & -> & -> & ->).
  apply runBlock_frame.
Qed.

Lemma runBlocks_message bs s Y :
  pendingMessageReplies (exec (runBlocks bs) s) !! Y =
    if decide (ExpireMessageReply Y ∈ block <$> bs) then None
    else pendingMessageReplies s !! Y.
Proof.
  revert s. induction bs as [|b bs IH]; intros s.
  - case_decide as Hd; [by apply elem_of_nil in Hd|done].
  - rewrite runBlocks_cons, IH, runBlock_message, fmap_cons.
    destruct (decide (ExpireMessageReply Y ∈ block <$> bs)) as [Hin|Hnin].
    + rewrite decide_True; [done|]. rewrite elem_of_cons. by right.
    + destruct (decide (block b = ExpireMessageReply Y)) as [Heq|Hne].
      * rewrite decide_True; [done|]. rewrite elem_of_cons. by left.
      * rewrite decide_False; [done|]. rewrite elem_of_cons.
        intros [Heq|Hin]; [by apply Hne|by apply Hnin].
Qed.

Lemma runBlocks_data bs s Y :
  pendingDataReplies (exec (runBlocks bs) s) !! Y =
    if decide (ExpireDataReply Y ∈ block <$> bs) then None
    else pendingDataReplies s !! Y.
Proof.
  revert s. induction bs as [|b bs IH]; intros s.
  - case_decide as Hd; [by apply elem_of_nil in Hd|done].
  - rewrite runBlocks_cons, IH, runBlock_data, fmap_cons.
    destruct (decide (ExpireDataReply Y ∈ block <$> bs)) as [Hin|Hnin].
    + rewrite decide_True; [done|]. rewrite elem_of_cons. by right.
    + destruct (decide (block b = ExpireDataReply Y)) as [Heq|Hne].
      * rewrite decide_True; [done|]. rewrite elem_of_cons. by left.
      * rewrite decide_False; [done|]. rewrite elem_of_cons.
        intros [Heq|Hin]; [by apply Hne|by apply Hnin].
Qed.

Lemma elapse_unfold dt s :
  exec (elapse dt) s =
    exec (runBlocks (dueAt (now s + dt) (mainQueue s)))
      {| pendingMessageReplies := pendingMessageReplies s;
         pendingDataReplies := pendingDataReplies s;
         mainQueue := waitingAt (now s + dt) (mainQueue s);
         now := now s + dt;
         uuidsDrawn := uuidsDrawn s;
         effects := effects s |}.
Proof. reflexivity. Qed.

Lemma elapse_frame dt s :
  mainQueue (exec (elapse dt) s) = waitingAt (now s + dt) (mainQueue s)
  ∧ now (exec (elapse dt) s) = now s + dt
  ∧ uuidsDrawn (exec (elapse dt) s) = uuidsDrawn s
  ∧ effects (exec (elapse dt) s) = effects s.
Proof.
  rewrite elapse_unfold.
  by destruct (runBlocks_frame (dueAt (now s + dt) (mainQueue s))
    {| pendingMessageReplies := pendingMessageReplies s;
       pendingDataReplies := pendingDataReplies s;
       mainQueue := waitingAt (now s + dt) (mainQueue s);
       now := now s + dt;
       uuidsDrawn := uuidsDrawn s;
       effects := effects s |}) as (-> & -> & -> & ->).
Qed.

Lemma elapse_message dt s Y :
  pendingMessageReplies (exec (elapse dt) s) !! Y =
    if decide (ExpireMessageReply Y ∈ block <$> dueAt (now s + dt) (mainQueue s))
    then None else pendingMessageReplies s !! Y.
Proof. by rewrite elapse_unfold, runBlocks_message. Qed.

Lemma elapse_data dt s Y :
  pendingDataReplies (exec (elapse dt) s) !! Y =
    if decide (ExpireDataReply Y ∈ block <$> dueAt (now s + dt) (mainQueue s))
    then None else pendingDataReplies s !! Y.
Proof. by rewrite elapse_unfold, runBlocks_data. Qed.

(** C10: a reply that consumes the entry of [X], or the expiry block of
    [X] running, touches the entry of [X] in its own dictionary only:
    every other entry of that dictionary, the whole other dictionary and
    the blocks waiting on the main queue are as before; when time
    passes, the entries that have no due block stay, and so do the
    blocks that are not yet due. *)
Theorem consuming_an_entry_leaves_the_others
    (s : ModuleState) (X Y : string) :
  X ≠ Y →
  (∀ reply,
      let s' := exec (replyToMessage X reply) s in
      pendingMessageReplies s' !! Y = pendingMessageReplies s !! Y
      ∧ pendingDataReplies s' = pendingDataReplies s
      ∧ mainQueue s' = mainQueue s)
  ∧ (∀ base64Data,
      let s' := exec (replyToMessageData X base64Data) s in
      pendingDataReplies s' !! Y = pendingDataReplies s !! Y
      ∧ pendingMessageReplies s' = pendingMessageReplies s
      ∧ mainQueue s' = mainQueue s)
  ∧ (let s' := exec (runBlock (ExpireMessageReply X)) s in
      pendingMessageReplies s' !! Y = pendingMessageReplies s !! Y
      ∧ pendingDataReplies s' = pendingDataReplies s
      ∧ mainQueue s' = mainQueue s
      ∧ effects s' = effects s)
  ∧ (let s' := exec (runBlock (ExpireDataReply X)) s in
      pendingDataReplies s' !! Y = pendingDataReplies s !! Y
      ∧ pendingMessageReplies s' = pendingMessageReplies s
      ∧ mainQueue s' = mainQueue s
      ∧ effects s' = effects s)
  ∧ (∀ dt,
      let s' := exec (elapse dt) s in
      (ExpireMessageReply Y ∉ block <$> dueAt (now s + dt) (mainQueue s) →
       pendingMessageReplies s' !! Y = pendingMessageReplies s !! Y)
      ∧ (ExpireDataReply Y ∉ block <$> dueAt (now s + dt) (mainQueue s) →
         pendingDataReplies s' !! Y = pendingDataReplies s !! Y)
      ∧ mainQueue s' = waitingAt (now s + dt) (mainQueue s)).
Proof.
  intros Hne. repeat split.
  - unfold replyToMessage, exec, bind, removeMessageReply, removeValue.
    simpl. destruct (pendingMessageReplies s !! X); simpl;
      by apply lookup_delete_ne.
  - unfold replyToMessage, exec, bind, removeMessageReply, removeValue.
    simpl. by destruct (pendingMessageReplies s !! X).
  - unfold replyToMessage, exec, bind, removeMessageReply, removeValue.
    simpl. by destruct (pendingMessageReplies s !! X).
  - unfold replyToMessageData, exec, bind, removeDataReply, removeValue.
    destruct (dataBase64Encoded base64Data); [|done].
    simpl. destruct (pendingDataReplies s !! X); simpl;
      by apply lookup_delete_ne.
  - unfold replyToMessageData, exec, bind, removeDataReply, removeValue.
    destruct (dataBase64Encoded base64Data); [|done].
    simpl. by destruct (pendingDataReplies s !! X).
  - unfold replyToMessageData, exec, bind, removeDataReply, removeValue.
    destruct (dataBase64Encoded base64Data); [|done].
    simpl. by destruct (pendingDataReplies s !! X).
  - simpl. by apply lookup_delete_ne.
  - simpl. by apply lookup_delete_ne.
  - intros Hnd. rewrite elapse_message. by rewrite decide_False.
  - intros Hnd. rewrite elapse_data. by rewrite decide_False.
  - apply elapse_frame.
Qed.

End MainQueue.

(** ** Runs of the module *)

Section Runs.
Context {codec : Base64Codec} {uuids : UUIDSource}.

#[local] Ltac step_call :=
  unfold call, didReceiveMessage, didReceiveMessageWithReply,
    didReceiveMessageData, didReceiveMessageDataWithReply,
    dispatchMessageReceived, dispatchMessageDataReceived,
    sessionDidBecomeInactive, sessionDidDeactivate, onStopObserving,
    dispatchSessionStateChanged, replyToMessage, replyToMessageData,
    sendEvent, exec, result, bind, ret, removeMessageReply, removeDataReply,
    removeValue, setMessageReply, setDataReply, asyncAfter, perform, newUUID;
  simpl.

(** The state after each call, field by field. *)

Lemma exec_registerMessage message handler s :
  exec (call (DidReceiveMessageWithReply message handler)) s =
    let replyId := uuidString (uuidsDrawn s) in
    {| pendingMessageReplies := <[replyId := handler]> (pendingMessageReplies s);
       pendingDataReplies := pendingDataReplies s;
       mainQueue := mainQueue s ++
         [{| fireAt := now s + replyExpiry; block := ExpireMessageReply replyId |}];
       now := now s;
       uuidsDrawn := S (uuidsDrawn s);
       effects := effects s ++
         [SendEvent "onMessageReceived"
            (<["replyId" := AnyString replyId]> {[ "message" := AnyDict message ]})] |}.
Proof. reflexivity. Qed.

Lemma exec_registerData received handler s :
  exec (call (DidReceiveMessageDataWithReply received handler)) s =
    let replyId := uuidString (uuidsDrawn s) in
    {| pendingMessageReplies := pendingMessageReplies s;
       pendingDataReplies := <[replyId := handler]> (pendingDataReplies s);
       mainQueue := mainQueue s ++
         [{| fireAt := now s + replyExpiry; block := ExpireDataReply replyId |}];
       now := now s;
       uuidsDrawn := S (uuidsDrawn s);
       effects := effects s ++
         [SendEvent "onMessageDataReceived"
            (<["replyId" := AnyString replyId]>
               {[ "data" := AnyString (base64EncodedString received) ]})] |}.
Proof. reflexivity. Qed.

Lemma exec_replyToMessage replyId reply s :
  exec (call (ReplyToMessage replyId reply)) s =
    {| pendingMessageReplies := delete replyId (pendingMessageReplies s);
       pendingDataReplies := pendingDataReplies s;
       mainQueue := mainQueue s;
       now := now s;
       uuidsDrawn := uuidsDrawn s;
       effects := effects s ++
         match pendingMessageReplies s !! replyId with
         | Some handler => [InvokeMessageReply handler reply]
         | None => []
         end |}.
Proof.
  step_call. destruct (pendingMessageReplies s !! replyId); simpl; [done|].
  by rewrite app_nil_r.
Qed.

Lemma exec_replyToMessageData replyId base64Data s :
  exec (call (ReplyToMessageData replyId base64Data)) s =
    match dataBase64Encoded base64Data with
    | None => s
    | Some data =>
      {| pendingMessageReplies := pendingMessageReplies s;
         pendingDataReplies := delete replyId (pendingDataReplies s);
         mainQueue := mainQueue s;
         now := now s;
         uuidsDrawn := uuidsDrawn s;
         effects := effects s ++
           match pendingDataReplies s !! replyId with
           | Some handler => [InvokeDataReply handler data]
           | None => []
           end |}
    end.
Proof.
  step_call. destruct (dataBase64Encoded base64Data); simpl; [|done].
  destruct (pendingDataReplies s !! replyId); simpl; [done|].
  by rewrite app_nil_r.
Qed.

Lemma exec_reports c es s :
  reports c = Some es →
  exec (call c) s =
    {| pendingMessageReplies := pendingMessageReplies s;
       pendingDataReplies := pendingDataReplies s;
       mainQueue := mainQueue s;
       now := now s;
       uuidsDrawn := uuidsDrawn s;
       effects := effects s ++ es |}.
Proof.
  destruct c; try done; intros [= <-]; step_call; try done.
  - by rewrite <-app_assoc.
  - rewrite app_nil_r. by destruct s.
Qed.

Lemma reports_issue_nothing c es :
  reports c = Some es → issuedReplyIds es = [].
Proof. destruct c; try done; by intros [= <-]. Qed.

Lemma drawn_mono s s' replyId :
  (uuidsDrawn s ≤ uuidsDrawn s')%nat → drawn s replyId → drawn s' replyId.
Proof. intros Hle (j & Hj & ->). exists j. split; [lia|done]. Qed.

Lemma call_counters c s :
  (uuidsDrawn s ≤ uuidsDrawn (exec (call c) s))%nat
  ∧ now s ≤ now (exec (call c) s).
Proof.
  destruct (reports c) as [es|] eqn:Hr.
  { rewrite (exec_reports _ _ _ Hr). simpl. split; lia. }
  destruct c; try done.
  - rewrite exec_registerMessage. simpl. split; lia.
  - rewrite exec_registerData. simpl. split; lia.
  - rewrite exec_replyToMessage. simpl. split; lia.
  - rewrite exec_replyToMessageData.
    destruct (dataBase64Encoded base64Data); simpl; split; lia.
  - destruct (elapse_frame dt s) as (_ & Hn & Hu & _).
    change (exec (call (Elapse dt)) s) with (exec (elapse dt) s).
    rewrite Hn, Hu. split; lia.
Qed.

Lemma entry_after_call c s k Y v :
  pendingEntry k (exec (call c) s) Y = Some v →
  pendingEntry k s Y = Some v
  ∨ (Y = uuidString (uuidsDrawn s) ∧ registers c k v).
Proof.
  destruct (reports c) as [es|] eqn:Hr.
  { rewrite (exec_reports _ _ _ Hr). destruct k; by left. }
  destruct c; try done.
  - rewrite exec_registerMessage. destruct k; simpl; [|by left].
    rewrite lookup_insert. case_decide as Hd; [|by left].
    intros [= <-]. by right.
  - rewrite exec_registerData. destruct k; simpl; [by left|].
    rewrite lookup_insert. case_decide as Hd; [|by left].
    intros [= <-]. by right.
  - rewrite exec_replyToMessage. destruct k; simpl; [|by left].
    rewrite lookup_delete. case_decide; [done|by left].
  - rewrite exec_replyToMessageData.
    destruct (dataBase64Encoded base64Data); [|by left].
    destruct k; simpl; [by left|].
    rewrite lookup_delete. case_decide; [done|by left].
  - change (exec (call (Elapse dt)) s) with (exec (elapse dt) s).
    destruct k; unfold pendingEntry.
    + rewrite elapse_message. case_decide; [done|by left].
    + rewrite elapse_data. case_decide; [done|by left].
Qed.

Lemma entry_kept c s k Y v :
  pendingEntry k s Y = Some v →
  Y ≠ uuidString (uuidsDrawn s) →
  ¬ repliesTo c k Y →
  expiryOf k Y ∉ block <$> dueAt (now (exec (call c) s)) (mainQueue s) →
  pendingEntry k (exec (call c) s) Y = Some v.
Proof.
  intros Hv Hfresh Hnr Hnd.
  destruct (reports c) as [es|] eqn:Hr.
  { rewrite (exec_reports _ _ _ Hr). by destruct k. }
  destruct c; try done.
  - rewrite exec_registerMessage. destruct k; simpl; [|done].
    by rewrite lookup_insert_ne.
  - rewrite exec_registerData. destruct k; simpl; [done|].
    by rewrite lookup_insert_ne.
  - rewrite exec_replyToMessage. destruct k; simpl; [|done].
    by rewrite lookup_delete_ne.
  - rewrite exec_replyToMessageData.
    destruct (dataBase64Encoded base64Data); [|done].
    destruct k; simpl; [done|]. by rewrite lookup_delete_ne.
  - change (exec (call (Elapse dt)) s) with (exec (elapse dt) s) in *.
    destruct (elapse_frame dt s) as (_ & Hn & _). rewrite Hn in Hnd.
    destruct k; unfold pendingEntry.
    + by rewrite elapse_message, decide_False.
    + by rewrite elapse_data, decide_False.
Qed.

Lemma entry_expired dt s k Y :
  expiryOf k Y ∈ block <$> dueAt (now s + dt) (mainQueue s) →
  pendingEntry k (exec (elapse dt) s) Y = None.
Proof.
  intros Hd. destruct k; unfold pendingEntry.
  - by rewrite elapse_message, decide_True.
  - by rewrite elapse_data, decide_True.
Qed.

Lemma queue_after_call c s b :
  b ∈ mainQueue (exec (call c) s) →
  b ∈ mainQueue s
  ∨ (∃ k, registers_block c k
        ∧ b = {| fireAt := now s + replyExpiry;
                 block := expiryOf k (uuidString (uuidsDrawn s)) |}).
Proof.
  destruct (reports c) as [es|] eqn:Hr.
  { rewrite (exec_reports _ _ _ Hr). by left. }
  destruct c; try done.
  - rewrite exec_registerMessage. simpl. rewrite elem_of_app, list_elem_of_singleton.
    intros [?| ->]; [by left|right]. by exists Structured.
  - rewrite exec_registerData. simpl. rewrite elem_of_app, list_elem_of_singleton.
    intros [?| ->]; [by left|right]. by exists RawBytes.
  - rewrite exec_replyToMessage. by left.
  - rewrite exec_replyToMessageData.
    destruct (dataBase64Encoded base64Data); by left.
  - change (exec (call (Elapse dt)) s) with (exec (elapse dt) s).
    destruct (elapse_frame dt s) as (-> & _). unfold waitingAt.
    rewrite list_elem_of_filter. intros [_ ?]. by left.
Qed.

Lemma queue_kept c s b :
  b ∈ mainQueue s →
  ¬ fireAt b ≤ now (exec (call c) s) →
  b ∈ mainQueue (exec (call c) s).
Proof.
  intros Hb Hnd.
  destruct (reports c) as [es|] eqn:Hr.
  { by rewrite (exec_reports _ _ _ Hr). }
  destruct c; try done.
  - rewrite exec_registerMessage. simpl. rewrite elem_of_app. by left.
  - rewrite exec_registerData. simpl. rewrite elem_of_app. by left.
  - by rewrite exec_replyToMessage.
  - rewrite exec_replyToMessageData.
    by destruct (dataBase64Encoded base64Data).
  - change (exec (call (Elapse dt)) s) with (exec (elapse dt) s) in *.
    destruct (elapse_frame dt s) as (Hq & Hn & _). rewrite Hq.
    rewrite Hn in Hnd. unfold waitingAt. by rewrite list_elem_of_filter.
Qed.

Lemma registers_draws c k v s :
  registers c k v → uuidsDrawn (exec (call c) s) = S (uuidsDrawn s).
Proof. by destruct c, k. Qed.

Lemma registers_block_draws c k s :
  registers_block c k → uuidsDrawn (exec (call c) s) = S (uuidsDrawn s).
Proof. by destruct c, k. Qed.

Lemma run_app cs cs' s : run (cs ++ cs') s = run cs' (run cs s).
Proof. revert s. induction cs as [|c cs IH]; intros s; [done|]. apply IH. Qed.

Lemma run_counters cs s :
  (uuidsDrawn s ≤ uuidsDrawn (run cs s))%nat ∧ now s ≤ now (run cs s).
Proof.
  revert s. induction cs as [|c cs IH]; intros s; [split; simpl; lia|].
  simpl. destruct (IH (exec (call c) s)), (call_counters c s). split; lia.
Qed.

Lemma is_Some_message s Y :
  is_Some (pendingMessageReplies s !! Y) ↔ is_Some (pendingEntry Structured s Y).
Proof. unfold pendingEntry. by rewrite fmap_is_Some. Qed.

Lemma is_Some_data s Y :
  is_Some (pendingDataReplies s !! Y) ↔ is_Some (pendingEntry RawBytes s Y).
Proof. unfold pendingEntry. by rewrite fmap_is_Some. Qed.

(** *** Every reachable state is well formed *)

Section Unique.
Hypothesis uuid_unique : Inj (=) (=) uuidString.

Lemma drawn_not_next s :
  ¬ drawn s (uuidString (uuidsDrawn s)).
Proof. intros (j & Hj & Heq). apply uuid_unique in Heq. lia. Qed.

Lemma wellFormed_initial : wellFormed initialState.
Proof.
  split.
  - intros [] Y [v Hv]; simpl in Hv; by rewrite lookup_empty in Hv.
  - intros b Hb. by apply elem_of_nil in Hb.
  - intros Y [v Hv]. simpl in Hv. by rewrite lookup_empty in Hv.
Qed.

Lemma wellFormed_call c s : wellFormed s → wellFormed (exec (call c) s).
Proof.
  intros [We Wq Wd].
  assert (Hmono := proj1 (call_counters c s)).
  split.
  - intros k Y [v Hv].
    destruct (entry_after_call _ _ _ _ _ Hv) as [Hold|[-> Hreg]].
    + eapply drawn_mono; [done|]. apply (We k). by rewrite Hold.
    + exists (uuidsDrawn s). split; [|done].
      rewrite (registers_draws _ _ _ s Hreg). lia.
  - intros b Hb.
    destruct (queue_after_call _ _ _ Hb) as [Hold|(k & Hreg & ->)].
    + eapply drawn_mono; [done|]. by apply Wq.
    + exists (uuidsDrawn s). split.
      * rewrite (registers_block_draws _ _ s Hreg). lia.
      * by destruct k.
  - intros Y [v1 H1]%is_Some_message [v2 H2]%is_Some_data.
    destruct (entry_after_call _ _ _ _ _ H1) as [Ho1|[-> Hr1]],
             (entry_after_call _ _ _ _ _ H2) as [Ho2|[Hy2 Hr2]].
    + apply (Wd Y); [apply is_Some_message|apply is_Some_data]; eauto.
    + subst Y. apply (drawn_not_next s), (We Structured). by rewrite Ho1.
    + apply (drawn_not_next s), (We RawBytes). by rewrite Ho2.
    + by destruct c.
Qed.

Lemma wellFormed_run cs s : wellFormed s → wellFormed (run cs s).
Proof.
  revert s. induction cs as [|c cs IH]; intros s Hw; [done|].
  simpl. by apply IH, wellFormed_call.
Qed.

Lemma call_now c s :
  now (exec (call c) s) =
    match c with Elapse dt => now s + dt | _ => now s end.
Proof.
  destruct (reports c) as [es|] eqn:Hr.
  { rewrite (exec_reports _ _ _ Hr). by destruct c. }
  destruct c; try done.
  - by rewrite exec_replyToMessage.
  - rewrite exec_replyToMessageData.
    by destruct (dataBase64Encoded base64Data).
  - apply elapse_frame.
Qed.

Lemma blockId_expiryOf k Y : blockId (expiryOf k Y) = Y.
Proof. by destruct k. Qed.

End Unique.

(** *** The reply ids handed out *)

Lemma issuedReplyIds_app es es' :
  issuedReplyIds (es ++ es') = issuedReplyIds es ++ issuedReplyIds es'.
Proof. apply omap_app. Qed.

Lemma call_issued c s :
  issuedReplyIds (effects (exec (call c) s)) =
    issuedReplyIds (effects s) ++
    (uuidString <$> seq (uuidsDrawn s)
                        (uuidsDrawn (exec (call c) s) - uuidsDrawn s)).
Proof.
  destruct (reports c) as [es|] eqn:Hr.
  { rewrite (exec_reports _ _ _ Hr). simpl.
    rewrite issuedReplyIds_app, (reports_issue_nothing _ _ Hr).
    by rewrite Nat.sub_diag. }
  destruct c; try done.
  - rewrite exec_registerMessage. simpl. rewrite issuedReplyIds_app.
    replace (S (uuidsDrawn s) - uuidsDrawn s)%nat with 1%nat by lia.
    simpl. unfold replyIdOf. by rewrite lookup_insert_eq.
  - rewrite exec_registerData. simpl. rewrite issuedReplyIds_app.
    replace (S (uuidsDrawn s) - uuidsDrawn s)%nat with 1%nat by lia.
    simpl. unfold replyIdOf. by rewrite lookup_insert_eq.
  - rewrite exec_replyToMessage. simpl. rewrite issuedReplyIds_app, Nat.sub_diag.
    by destruct (pendingMessageReplies s !! replyId).
  - rewrite exec_replyToMessageData.
    destruct (dataBase64Encoded base64Data); simpl;
      rewrite Nat.sub_diag; simpl; [|by rewrite app_nil_r].
    rewrite issuedReplyIds_app.
    by destruct (pendingDataReplies s !! replyId).
  - change (exec (call (Elapse dt)) s) with (exec (elapse dt) s).
    destruct (elapse_frame dt s) as (_ & _ & -> & ->).
    by rewrite Nat.sub_diag, app_nil_r.
Qed.

Lemma run_issued cs s :
  issuedReplyIds (effects (run cs s)) =
    issuedReplyIds (effects s) ++
    (uuidString <$> seq (uuidsDrawn s) (uuidsDrawn (run cs s) - uuidsDrawn s)).
Proof.
  revert s. induction cs as [|c cs IH]; intros s.
  - simpl. by rewrite Nat.sub_diag, app_nil_r.
  - simpl. rewrite IH, call_issued, <-app_assoc, <-fmap_app.
    destruct (call_counters c s) as [H1 _].
    destruct (run_counters cs (exec (call c) s)) as [H2 _].
    do 2 f_equal.
    replace (uuidsDrawn (run cs (exec (call c) s)) - uuidsDrawn s)%nat
      with ((uuidsDrawn (exec (call c) s) - uuidsDrawn s)
            + (uuidsDrawn (run cs (exec (call c) s))
               - uuidsDrawn (exec (call c) s)))%nat by lia.
    rewrite seq_app. do 2 f_equal. lia.
Qed.

Lemma pendingEntry_inl k s Y handler :
  pendingEntry k s Y = Some (inl handler) →
  k = Structured ∧ pendingMessageReplies s !! Y = Some handler.
Proof.
  destruct k; simpl; destruct (_ !! Y); simpl; intros [= ->]; done.
Qed.

Lemma pendingEntry_inr k s Y handler :
  pendingEntry k s Y = Some (inr handler) →
  k = RawBytes ∧ pendingDataReplies s !! Y = Some handler.
Proof.
  destruct k; simpl; destruct (_ !! Y); simpl; intros [= ->]; done.
Qed.

(** C4: in every run the reply ids handed to the application are
    pairwise distinct, provided [UUID()] never returns the same value
    twice; the id of the next registration, of either kind, is none of
    the ids handed out before (whether consumed, expired or still
    pending) and the key of no entry. *)
Theorem reply_ids_are_pairwise_distinct (calls : list Call) :
  Inj (=) (=) uuidString →
  let s := run calls initialState in
  NoDup (issuedReplyIds (effects s))
  ∧ (∀ message handler replyId,
       result (didReceiveMessageWithReply message handler) s !! "replyId"
         = Some (AnyString replyId) →
       (replyId ∉ issuedReplyIds (effects s))
       ∧ pendingMessageReplies s !! replyId = None
       ∧ pendingDataReplies s !! replyId = None)
  ∧ (∀ received handler replyId,
       result (didReceiveMessageDataWithReply received handler) s !! "replyId"
         = Some (AnyString replyId) →
       (replyId ∉ issuedReplyIds (effects s))
       ∧ pendingMessageReplies s !! replyId = None
       ∧ pendingDataReplies s !! replyId = None).
Proof.
  intros Hinj s.
  assert (Hw : wellFormed s) by apply (wellFormed_run Hinj), wellFormed_initial.
  assert (Hissued : issuedReplyIds (effects s)
                    = uuidString <$> seq 0 (uuidsDrawn s)).
  { subst s. rewrite run_issued. simpl. by rewrite Nat.sub_0_r. }
  assert (Hnext : (uuidString (uuidsDrawn s) ∉ issuedReplyIds (effects s))
            ∧ pendingMessageReplies s !! uuidString (uuidsDrawn s) = None
            ∧ pendingDataReplies s !! uuidString (uuidsDrawn s) = None).
  { split; [|split].
    - rewrite Hissued. intros (j & Hj & Hin)%list_elem_of_fmap.
      apply Hinj in Hj as <-. apply elem_of_seq in Hin. lia.
    - apply eq_None_not_Some. intros Hs%is_Some_message.
      by apply (drawn_not_next Hinj s), (wf_entries _ Hw Structured).
    - apply eq_None_not_Some. intros Hs%is_Some_data.
      by apply (drawn_not_next Hinj s), (wf_entries _ Hw RawBytes). }
  split; [|split].
  - rewrite Hissued. apply NoDup_fmap_2; [done|apply NoDup_seq].
  - intros message handler replyId Hp.
    unfold didReceiveMessageWithReply, dispatchMessageReceived, result, bind,
      newUUID, setMessageReply, asyncAfter, sendEvent, perform, ret in Hp.
    simpl in Hp. rewrite lookup_insert_eq in Hp. by injection Hp as <-.
  - intros received handler replyId Hp.
    unfold didReceiveMessageDataWithReply, dispatchMessageDataReceived, result,
      bind, newUUID, setDataReply, asyncAfter, sendEvent, perform, ret in Hp.
    simpl in Hp. rewrite lookup_insert_eq in Hp. by injection Hp as <-.
Qed.

(** C7: the payload of the event carries, under the key [replyId], the
    UUID just drawn as a string, and that id is now the key of the
    handler, exactly when the session supplied a reply handler; without
    one the payload has no [replyId] and nothing is registered. *)
Theorem reply_id_in_event_payload (s : ModuleState) :
  (∀ message handler,
      let payload := result (dispatchMessageReceived message (Some handler)) s in
      let s' := exec (dispatchMessageReceived message (Some handler)) s in
      payload !! "replyId" = Some (AnyString (uuidString (uuidsDrawn s)))
      ∧ pendingMessageReplies s' !! uuidString (uuidsDrawn s) = Some handler
      ∧ effects s' = effects s ++ [SendEvent "onMessageReceived" payload])
  ∧ (∀ message,
      let payload := result (dispatchMessageReceived message None) s in
      let s' := exec (dispatchMessageReceived message None) s in
      payload !! "replyId" = None
      ∧ pendingMessageReplies s' = pendingMessageReplies s
      ∧ pendingDataReplies s' = pendingDataReplies s
      ∧ mainQueue s' = mainQueue s
      ∧ effects s' = effects s ++ [SendEvent "onMessageReceived" payload])
  ∧ (∀ received handler,
      let payload := result (dispatchMessageDataReceived received (Some handler)) s in
      let s' := exec (dispatchMessageDataReceived received (Some handler)) s in
      payload !! "replyId" = Some (AnyString (uuidString (uuidsDrawn s)))
      ∧ pendingDataReplies s' !! uuidString (uuidsDrawn s) = Some handler
      ∧ effects s' = effects s ++ [SendEvent "onMessageDataReceived" payload])
  ∧ (∀ received,
      let payload := result (dispatchMessageDataReceived received None) s in
      let s' := exec (dispatchMessageDataReceived received None) s in
      payload !! "replyId" = None
      ∧ pendingMessageReplies s' = pendingMessageReplies s
      ∧ pendingDataReplies s' = pendingDataReplies s
      ∧ mainQueue s' = mainQueue s
      ∧ effects s' = effects s ++ [SendEvent "onMessageDataReceived" payload]).
Proof.
  split; [|split; [|split]].
  - intros message handler payload s'. subst payload s'. step_call.
    by rewrite !lookup_insert_eq.
  - by intros message.
  - intros received handler payload s'. subst payload s'. step_call.
    by rewrite !lookup_insert_eq.
  - by intros received.
Qed.

(** C6, as the code has it: a reply looks only in the dictionary of its
    own kind.  In every reachable state an id is a key of at most one
    dictionary, so a reply of the wrong kind finds nothing: it invokes
    no handler, delivers nothing and leaves the state, the entry of the
    other kind included, as it was. *)
Theorem wrong_kind_reply_finds_nothing (calls : list Call) (replyId : string) :
  Inj (=) (=) uuidString →
  let s := run calls initialState in
  (∀ handler base64Data,
      pendingMessageReplies s !! replyId = Some handler →
      replyToMessageData replyId base64Data s = (false, s))
  ∧ (∀ handler reply,
      pendingDataReplies s !! replyId = Some handler →
      replyToMessage replyId reply s = (false, s)).
Proof.
  intros Hinj s.
  assert (Hw : wellFormed s) by apply (wellFormed_run Hinj), wellFormed_initial.
  split.
  - intros handler base64Data Hp. apply replyToMessageData_absent.
    apply eq_None_not_Some. intros Hd.
    apply (wf_disjoint _ Hw replyId); [by rewrite Hp|done].
  - intros handler reply Hp. apply replyToMessage_absent.
    apply eq_None_not_Some. intros Hm.
    apply (wf_disjoint _ Hw replyId); [done|by rewrite Hp].
Qed.

(** X21: nothing in the module clears the pending replies when the
    session goes away.  When the session becomes inactive or is
    deactivated ([sessionDidBecomeInactive], [sessionDidDeactivate]) or
    the application stops observing, no handler is invoked, and both
    dictionaries and the expiry blocks stay as they are; a pending id
    can still be replied to afterwards. *)
Theorem teardown_keeps_pending_replies (s : ModuleState) (c : Call) :
  (∃ st, c = SessionDidBecomeInactive st ∨ c = SessionDidDeactivate st)
  ∨ c = StopObserving →
  let s' := exec (call c) s in
  pendingMessageReplies s' = pendingMessageReplies s
  ∧ pendingDataReplies s' = pendingDataReplies s
  ∧ mainQueue s' = mainQueue s
  ∧ (∃ es, effects s' = effects s ++ es
       ∧ ∀ e, e ∈ es → e = ActivateSession ∨ ∃ st, e = SendEvent "onSessionStateChanged" st)
  ∧ (∀ replyId handler reply,
       pendingMessageReplies s !! replyId = Some handler →
       result (replyToMessage replyId reply) s' = true
       ∧ effects (exec (replyToMessage replyId reply) s')
         = effects s' ++ [InvokeMessageReply handler reply])
  ∧ (∀ replyId handler base64Data data,
       dataBase64Encoded base64Data = Some data →
       pendingDataReplies s !! replyId = Some handler →
       result (replyToMessageData replyId base64Data) s' = true
       ∧ effects (exec (replyToMessageData replyId base64Data) s')
         = effects s' ++ [InvokeDataReply handler data]).
Proof.
  intros Hc s'.
  assert (∃ es, reports c = Some es
            ∧ ∀ e, e ∈ es → e = ActivateSession
                            ∨ ∃ st, e = SendEvent "onSessionStateChanged" st)
    as (es & Hr & Hes).
  { destruct Hc as [[st [-> | ->]]| ->]; eexists; (split; [done|]); intros e He.
    - apply list_elem_of_singleton in He as ->. right. by exists st.
    - apply elem_of_cons in He as [->|He]; [right; by exists st|].
      apply list_elem_of_singleton in He as ->. by left.
    - by apply elem_of_nil in He. }
  subst s'. rewrite (exec_reports _ _ _ Hr). simpl.
  split; [done|]. split; [done|]. split; [done|]. split; [by exists es|].
  split.
  - intros replyId handler reply Hp. unfold exec, result.
    by rewrite (replyToMessage_found _ _ _ handler).
  - intros replyId handler base64Data data Hd Hp. unfold exec, result.
    by rewrite (replyToMessageData_found _ _ _ data handler).
Qed.

End Runs.

(** ** A reply racing the expiry block *)

Section Race.
Context {codec : Base64Codec}.

Lemma interleave_app sched sched' cfg :
  interleave (sched ++ sched') cfg = interleave sched' (interleave sched cfg).
Proof. revert cfg. induction sched as [|i sched IH]; intros cfg; [done|]. apply IH. Qed.

#[local] Ltac in_list :=
  repeat first [apply list_elem_of_here | apply list_elem_of_further].

#[local] Ltac try_serial sched :=
  exists sched; split; [unfold serialSchedules; in_list | reflexivity].

#[local] Ltac find_serial :=
  first
    [ try_serial (@nil nat)
    | try_serial [0]%nat | try_serial [0;0]%nat | try_serial [0;0;0]%nat
    | try_serial [0;0;0;0]%nat | try_serial [0;0;0;0;0]%nat
    | try_serial [1]%nat | try_serial [1;1]%nat | try_serial [1;1;1]%nat
    | try_serial [1;1;1;1]%nat
    | try_serial [0;0;0;0;0;1]%nat | try_serial [0;0;0;0;0;1;1]%nat
    | try_serial [0;0;0;0;0;1;1;1]%nat | try_serial [0;0;0;0;0;1;1;1;1]%nat
    | try_serial [1;1;1;1;0]%nat | try_serial [1;1;1;1;0;0]%nat
    | try_serial [1;1;1;1;0;0;0]%nat | try_serial [1;1;1;1;0;0;0;0]%nat
    | try_serial [1;1;1;1;0;0;0;0;0]%nat ].

#[local] Ltac each_serial Hin :=
  unfold serialSchedules in Hin;
  repeat (apply elem_of_cons in Hin as [->|Hin]);
  [..|by apply elem_of_nil in Hin].

Lemma serial_step_message s replyId reply i cfg :
  serial (raceMessage s replyId reply) cfg →
  serial (raceMessage s replyId reply) (step i cfg).
Proof.
  intros (sched & Hin & ->). each_serial Hin;
    (destruct i as [|[|i]]; unfold serial; find_serial).
Qed.

Lemma serial_step_data s replyId base64Data data i cfg :
  dataBase64Encoded base64Data = Some data →
  serial (raceData s replyId base64Data) cfg →
  serial (raceData s replyId base64Data) (step i cfg).
Proof.
  unfold raceData, replyToMessageDataThread. intros ->.
  intros (sched & Hin & ->). each_serial Hin;
    (destruct i as [|[|i]]; unfold serial; find_serial).
Qed.

Lemma serial_interleave cfg0 schedule :
  (∀ i cfg, serial cfg0 cfg → serial cfg0 (step i cfg)) →
  serial cfg0 (interleave schedule cfg0).
Proof.
  intros Hstep. induction schedule as [|i schedule IH] using rev_ind.
  - exists []. split; [apply list_elem_of_here|done].
  - rewrite interleave_app. by apply Hstep.
Qed.

#[local] Ltac not_finished :=
  let Hf := fresh in intros Hf; exfalso; revert Hf; by lazy.

#[local] Ltac race_cases entry :=
  split; [|split; [|split]];
  [ simpl; rewrite ?lookup_delete_eq; simpl; destruct entry; simpl; by eauto
  | lazy; lia
  | try not_finished
  | by lazy ].

#[local] Ltac race_finish :=
  simpl; rewrite ?delete_delete_eq, ?lookup_delete_eq;
  (split; [done|split; [done|]]);
  do 2 eexists; (split; [reflexivity|]);
  (split; [first [left; split; reflexivity | right; split; reflexivity]
          |simpl; by rewrite ?app_nil_r]).

Lemma race_message_outcome s replyId reply cfg :
  serial (raceMessage s replyId reply) cfg →
  let entry := pendingMessageReplies s !! replyId in
  (effects (shared cfg) = effects s
   ∨ ∃ handler, entry = Some handler
       ∧ effects (shared cfg) = effects s ++ [InvokeMessageReply handler reply])
  ∧ (removers cfg ≤ 1)%nat
  ∧ (finished cfg = true →
     lockedBy cfg = None
     ∧ pendingMessageReplies (shared cfg) = delete replyId (pendingMessageReplies s)
     ∧ ∃ byReply byExpiry,
         foundMessage <$> threads cfg = [Some byReply; Some byExpiry]
         ∧ (byReply = entry ∧ byExpiry = None ∨ byReply = None ∧ byExpiry = entry)
         ∧ effects (shared cfg) =
             effects s ++ match byReply with
                          | Some handler => [InvokeMessageReply handler reply]
                          | None => []
                          end)
  ∧ finished (interleave completion cfg) = true.
Proof.
  intros (sched & Hin & ->) entry. subst entry. each_serial Hin.
  all: race_cases (pendingMessageReplies s !! replyId).
  all: intros _; simpl; rewrite ?lookup_delete_eq; simpl.
  all: destruct (pendingMessageReplies s !! replyId) eqn:Hentry; race_finish.
Qed.

Lemma race_data_outcome s replyId base64Data data cfg :
  dataBase64Encoded base64Data = Some data →
  serial (raceData s replyId base64Data) cfg →
  let entry := pendingDataReplies s !! replyId in
  (effects (shared cfg) = effects s
   ∨ ∃ handler, entry = Some handler
       ∧ effects (shared cfg) = effects s ++ [InvokeDataReply handler data])
  ∧ (removers cfg ≤ 1)%nat
  ∧ (finished cfg = true →
     lockedBy cfg = None
     ∧ pendingDataReplies (shared cfg) = delete replyId (pendingDataReplies s)
     ∧ ∃ byReply byExpiry,
         foundData <$> threads cfg = [Some byReply; Some byExpiry]
         ∧ (byReply = entry ∧ byExpiry = None ∨ byReply = None ∧ byExpiry = entry)
         ∧ effects (shared cfg) =
             effects s ++ match byReply with
                          | Some handler => [InvokeDataReply handler data]
                          | None => []
                          end)
  ∧ finished (interleave completion cfg) = true.
Proof.
  unfold raceData, replyToMessageDataThread. intros ->.
  intros (sched & Hin & ->). cbv zeta. each_serial Hin.
  all: race_cases (pendingDataReplies s !! replyId).
  all: intros _; simpl; rewrite ?lookup_delete_eq; simpl.
  all: destruct (pendingDataReplies s !! replyId) eqn:Hentry; race_finish.
Qed.

(** Without [replyLock] it is otherwise: with the lock calls taken out
    of both bodies, or out of the expiry block alone, there are schedules
    in which both threads are in the middle of [removeValue] and both
    find the entry, so that the reply calls the handler although the
    expiry block, too, took the entry as its own. *)
Lemma without_replyLock_both_find_the_entry s replyId reply handler :
  pendingMessageReplies s !! replyId = Some handler →
  let replyBody := replyToMessageThread replyId reply in
  let expiryBody := expiryThread (ExpireMessageReply replyId) in
  let unlocked := raceOf s (withoutLock replyBody) (withoutLock expiryBody) in
  let halfLocked := raceOf s replyBody (withoutLock expiryBody) in
  (removers (interleave [0; 1]%nat unlocked) = 2%nat
   ∧ finished (interleave [0; 1; 0; 1; 0]%nat unlocked) = true
   ∧ foundMessage <$> threads (interleave [0; 1; 0; 1; 0]%nat unlocked)
     = [Some (Some handler); Some (Some handler)])
  ∧ (removers (interleave [0; 0; 1]%nat halfLocked) = 2%nat
     ∧ finished (interleave [0; 0; 1; 0; 1; 0; 0]%nat halfLocked) = true
     ∧ foundMessage <$> threads (interleave [0; 0; 1; 0; 1; 0; 0]%nat halfLocked)
       = [Some (Some handler); Some (Some handler)]).
Proof.
  intros Hentry. cbv zeta. split.
  - split; [done|]. split; [done|]. simpl. by rewrite Hentry.
  - split; [done|]. split; [done|]. simpl. by rewrite Hentry.
Qed.

(** C5: when a reply to [replyId] and the expiry block of [replyId] run
    on two threads, each taking [replyLock] around its
    [removeValue(forKey:)], then under every schedule the handler is
    invoked at most once and the two threads are never both in the
    middle of [removeValue]; once both have returned the lock is free,
    the entry is gone, and exactly one of the two [removeValue] calls
    found what was stored under [replyId] while the other found nothing,
    the handler having been called exactly when the reply was the one to
    find it; and from every configuration the race can reach both
    threads do return. *)
Theorem reply_and_expiry_race
    (s : ModuleState) (replyId : string) (schedule : list nat) :
  (∀ reply,
      let cfg := interleave schedule (raceMessage s replyId reply) in
      let entry := pendingMessageReplies s !! replyId in
      (effects (shared cfg) = effects s
       ∨ ∃ handler, entry = Some handler
           ∧ effects (shared cfg) = effects s ++ [InvokeMessageReply handler reply])
      ∧ (removers cfg ≤ 1)%nat
      ∧ (finished cfg = true →
         lockedBy cfg = None
         ∧ pendingMessageReplies (shared cfg)
           = delete replyId (pendingMessageReplies s)
         ∧ ∃ byReply byExpiry,
             foundMessage <$> threads cfg = [Some byReply; Some byExpiry]
             ∧ (byReply = entry ∧ byExpiry = None
                ∨ byReply = None ∧ byExpiry = entry)
             ∧ effects (shared cfg) =
                 effects s ++ match byReply with
                              | Some handler => [InvokeMessageReply handler reply]
                              | None => []
                              end)
      ∧ finished (interleave completion cfg) = true)
  ∧ (∀ base64Data data,
      dataBase64Encoded base64Data = Some data →
      let cfg := interleave schedule (raceData s replyId base64Data) in
      let entry := pendingDataReplies s !! replyId in
      (effects (shared cfg) = effects s
       ∨ ∃ handler, entry = Some handler
           ∧ effects (shared cfg) = effects s ++ [InvokeDataReply handler data])
      ∧ (removers cfg ≤ 1)%nat
      ∧ (finished cfg = true →
         lockedBy cfg = None
         ∧ pendingDataReplies (shared cfg)
           = delete replyId (pendingDataReplies s)
         ∧ ∃ byReply byExpiry,
             foundData <$> threads cfg = [Some byReply; Some byExpiry]
             ∧ (byReply = entry ∧ byExpiry = None
                ∨ byReply = None ∧ byExpiry = entry)
             ∧ effects (shared cfg) =
                 effects s ++ match byReply with
                              | Some handler => [InvokeDataReply handler data]
                              | None => []
                              end)
      ∧ finished (interleave completion cfg) = true).
Proof.
  split.
  - intros reply. apply race_message_outcome, serial_interleave.
    intros i cfg. apply serial_step_message.
  - intros base64Data data Hd. apply (race_data_outcome _ _ _ _ _ Hd).
    apply serial_interleave. intros i cfg. by apply serial_step_data with data.
Qed.

End Race.

(** ** The definitions at work *)

Section Examples.
#[local] Existing Instance RFC4648.codec.
#[local] Existing Instance counterUUIDs.

Example base64_encode_hi :
  RFC4648.encode [Byte.x68; Byte.x69] = "aGk=".
Proof. reflexivity. Qed.

Example base64_decode_hi :
  RFC4648.decode "aGk=" = Some [Byte.x68; Byte.x69].
Proof. reflexivity. Qed.

Example base64_decode_unpadded : RFC4648.decode "aGk" = None.
Proof. reflexivity. Qed.

Example base64_decode_outside_alphabet : RFC4648.decode "aGk*" = None.
Proof. reflexivity. Qed.

Example base64_decode_hello :
  RFC4648.decode "aGVsbG8h"
  = Some [Byte.x68; Byte.x65; Byte.x6c; Byte.x6c; Byte.x6f; Byte.x21].
Proof. reflexivity. Qed.

Example uuids_of_counter : uuidString 0 = "0" ∧ uuidString 12 = "12".
Proof. by vm_compute. Qed.

Example entry_pending_at_29_9s :
  pendingMessageReplies
    (run [DidReceiveMessageWithReply ∅ (MessageReply 7); Elapse 29900000000]
         initialState) !! "0"
  = Some (MessageReply 7).
Proof. reflexivity. Qed.

Example entry_gone_at_30s :
  pendingMessageReplies
    (run [DidReceiveMessageWithReply ∅ (MessageReply 7); Elapse 30000000000]
         initialState) !! "0"
  = None.
Proof. reflexivity. Qed.

Example reply_ids_of_a_run :
  issuedReplyIds
    (effects
       (run [DidReceiveMessageWithReply ∅ (MessageReply 1);
             DidReceiveMessage ∅;
             DidReceiveMessageDataWithReply [Byte.x68] (DataReply 2);
             ReplyToMessage "0" ∅;
             Elapse 30000000000;
             DidReceiveMessageWithReply ∅ (MessageReply 3)]
            initialState))
  = ["0"; "1"; "2"].
Proof. reflexivity. Qed.

Example race_reply_first :
  let s := exec (didReceiveMessageWithReply ∅ (MessageReply 7)) initialState in
  let cfg := interleave [0; 1; 0; 1; 0; 0; 1; 0; 1; 1; 1; 1]%nat
               (raceMessage s "0" ∅) in
  finished cfg = true
  ∧ foundMessage <$> threads cfg = [Some (Some (MessageReply 7)); Some None]
  ∧ effects (shared cfg) = effects s ++ [InvokeMessageReply (MessageReply 7) ∅].
Proof. by vm_compute. Qed.

Example race_expiry_first :
  let s := exec (didReceiveMessageWithReply ∅ (MessageReply 7)) initialState in
  let cfg := interleave [1; 0; 1; 0; 1; 0; 1; 0; 0; 0; 0; 0]%nat
               (raceMessage s "0" ∅) in
  finished cfg = true
  ∧ foundMessage <$> threads cfg = [Some None; Some (Some (MessageReply 7))]
  ∧ effects (shared cfg) = effects s.
Proof. by vm_compute. Qed.

Example race_without_lock :
  let s := exec (didReceiveMessageWithReply ∅ (MessageReply 7)) initialState in
  let cfg := interleave [0; 0; 1; 0; 1; 0; 0]%nat
               (raceOf s (replyToMessageThread "0" ∅)
                  (withoutLock (expiryThread (ExpireMessageReply "0")))) in
  finished cfg = true
  ∧ foundMessage <$> threads cfg
    = [Some (Some (MessageReply 7)); Some (Some (MessageReply 7))]
  ∧ effects (shared cfg) = effects s ++ [InvokeMessageReply (MessageReply 7) ∅].
Proof. by vm_compute. Qed.

(** C6 as the claim has it fails: a data reply to the id of a pending
    message entry, with valid base64, finds nothing, invokes nothing and
    leaves the message entry pending; likewise a message reply to the id
    of a pending data entry. *)
Lemma wrong_kind_reply_is_not_delivered :
  let s := exec (didReceiveMessageWithReply ∅ (MessageReply 7)) initialState in
  let s' := exec (replyToMessageData "0" "aGk=") s in
  let t := exec (didReceiveMessageDataWithReply [Byte.x68] (DataReply 8))
                initialState in
  let t' := exec (replyToMessage "0" {[ "ack" := AnyBool true ]}) t in
  (pendingMessageReplies s !! "0" = Some (MessageReply 7)
   ∧ dataBase64Encoded "aGk=" = Some [Byte.x68; Byte.x69]
   ∧ result (replyToMessageData "0" "aGk=") s = false
   ∧ effects s' = effects s
   ∧ pendingMessageReplies s' !! "0" = Some (MessageReply 7))
  ∧ (pendingDataReplies t !! "0" = Some (DataReply 8)
     ∧ result (replyToMessage "0" {[ "ack" := AnyBool true ]}) t = false
     ∧ effects t' = effects t
     ∧ pendingDataReplies t' !! "0" = Some (DataReply 8)).
Proof. by vm_compute. Qed.

(** After the session is deactivated with one reply pending, the entry
    and its expiry block are still there, and a reply to it still
    reaches the handler. *)
Example pending_reply_survives_teardown :
  let s := exec (didReceiveMessageWithReply ∅ (MessageReply 7)) initialState in
  let s' := exec (sessionDidDeactivate ∅) s in
  pendingMessageReplies s' !! "0" = Some (MessageReply 7)
  ∧ pendingMessageReplies s' ≠ ∅
  ∧ mainQueue s' = [{| fireAt := replyExpiry; block := ExpireMessageReply "0" |}]
  ∧ result (replyToMessage "0" ∅) s' = true
  ∧ effects (exec (replyToMessage "0" ∅) s')
    = effects s' ++ [InvokeMessageReply (MessageReply 7) ∅].
Proof.
  intros s s'. split; [by vm_compute|]. split.
  - intros Hempty. assert (Hl : pendingMessageReplies s' !! "0" = None)
      by (rewrite Hempty; apply lookup_empty).
    by vm_compute in Hl.
  - by vm_compute.
Qed.

(** *** The theorems at concrete inputs *)

Lemma counterUUIDs_unique : Inj (=) (=) (uuidString (UUIDSource := counterUUIDs)).
Proof. intros j j' Heq. by apply pretty_nat_inj in Heq. Qed.

Lemma reply_to_pending_entry_witness :
  let s := exec (didReceiveMessageWithReply ∅ (MessageReply 7)) initialState in
  replyToMessage "0" {[ "ack" := AnyBool true ]} s =
    (true,
     {| pendingMessageReplies := delete "0" (pendingMessageReplies s);
        pendingDataReplies := pendingDataReplies s;
        mainQueue := mainQueue s;
        now := now s;
        uuidsDrawn := uuidsDrawn s;
        effects := effects s ++
          [InvokeMessageReply (MessageReply 7) {[ "ack" := AnyBool true ]}] |}).
Proof.
  intros s. apply (proj1 (reply_to_pending_entry s "0")). reflexivity.
Defined.

Lemma reply_to_absent_entry_witness :
  replyToMessage "0" ∅ initialState = (false, initialState).
Proof.
  apply (proj1 (reply_to_absent_entry initialState "0")). reflexivity.
Defined.

Lemma invalid_base64_keeps_entry_witness :
  let s := exec (didReceiveMessageDataWithReply [Byte.x68] (DataReply 8))
                initialState in
  let s1 := exec (replyToMessageData "0" "not base64") s in
  replyToMessageData "0" "not base64" s = (false, s)
  ∧ effects s1 = effects s
  ∧ pendingDataReplies s1 !! "0" = Some (DataReply 8)
  ∧ replyToMessageData "0" "aGk=" s1 =
      (true,
       {| pendingMessageReplies := pendingMessageReplies s;
          pendingDataReplies := delete "0" (pendingDataReplies s);
          mainQueue := mainQueue s;
          now := now s;
          uuidsDrawn := uuidsDrawn s;
          effects := effects s ++
            [InvokeDataReply (DataReply 8) [Byte.x68; Byte.x69]] |}).
Proof.
  intros s.
  apply (invalid_base64_keeps_entry s "0" (DataReply 8) "not base64" "aGk="
           [Byte.x68; Byte.x69]); reflexivity.
Defined.

Lemma consuming_an_entry_leaves_the_others_witness :
  let s := run [DidReceiveMessageWithReply ∅ (MessageReply 1);
                DidReceiveMessageWithReply ∅ (MessageReply 2)] initialState in
  let s' := exec (replyToMessage "0" ∅) s in
  pendingMessageReplies s' !! "1" = pendingMessageReplies s !! "1"
  ∧ pendingDataReplies s' = pendingDataReplies s
  ∧ mainQueue s' = mainQueue s.
Proof.
  intros s.
  assert (Hne : "0" ≠ "1") by discriminate.
  apply (proj1 (consuming_an_entry_leaves_the_others s "0" "1" Hne) ∅).
Defined.

Lemma reply_ids_are_pairwise_distinct_witness :
  NoDup
    (issuedReplyIds
       (effects
          (run [DidReceiveMessageWithReply ∅ (MessageReply 1);
                DidReceiveMessageDataWithReply [Byte.x68] (DataReply 2);
                ReplyToMessage "0" ∅;
                Elapse 30000000000;
                DidReceiveMessageWithReply ∅ (MessageReply 3)]
               initialState))).
Proof.
  apply (reply_ids_are_pairwise_distinct
           [DidReceiveMessageWithReply ∅ (MessageReply 1);
            DidReceiveMessageDataWithReply [Byte.x68] (DataReply 2);
            ReplyToMessage "0" ∅;
            Elapse 30000000000;
            DidReceiveMessageWithReply ∅ (MessageReply 3)]
           counterUUIDs_unique).
Defined.

Lemma reply_and_expiry_race_witness :
  let s := exec (didReceiveMessageDataWithReply [Byte.x68] (DataReply 8))
                initialState in
  let cfg := interleave [1; 0; 0; 1; 1; 0; 1; 0; 0; 1; 0; 0; 0]%nat
               (raceData s "0" "aGk=") in
  effects (shared cfg) = effects s
  ∨ ∃ handler, pendingDataReplies s !! "0" = Some handler
      ∧ effects (shared cfg)
        = effects s ++ [InvokeDataReply handler [Byte.x68; Byte.x69]].
Proof.
  intros s.
  apply (proj2 (reply_and_expiry_race s "0"
                  [1; 0; 0; 1; 1; 0; 1; 0; 0; 1; 0; 0; 0]%nat)
           "aGk=" [Byte.x68; Byte.x69]).
  reflexivity.
Defined.

Lemma wrong_kind_reply_finds_nothing_witness :
  let s := run [DidReceiveMessageWithReply ∅ (MessageReply 7)] initialState in
  replyToMessageData "0" "aGk=" s = (false, s).
Proof.
  intros s.
  apply (proj1 (wrong_kind_reply_finds_nothing
                  [DidReceiveMessageWithReply ∅ (MessageReply 7)] "0"
                  counterUUIDs_unique) (MessageReply 7) "aGk=").
  reflexivity.
Defined.

Lemma teardown_keeps_pending_replies_witness :
  let s := exec (didReceiveMessageWithReply ∅ (MessageReply 7)) initialState in
  let s' := exec (call (SessionDidDeactivate ∅)) s in
  pendingMessageReplies s' = pendingMessageReplies s
  ∧ pendingDataReplies s' = pendingDataReplies s
  ∧ mainQueue s' = mainQueue s.
Proof.
  intros s.
  assert (Hc : (∃ st, SessionDidDeactivate ∅ = SessionDidBecomeInactive st
                      ∨ SessionDidDeactivate ∅ = SessionDidDeactivate st)
               ∨ SessionDidDeactivate ∅ = StopObserving).
  { left. exists ∅. by right. }
  pose proof (teardown_keeps_pending_replies s (SessionDidDeactivate ∅) Hc)
    as Hthm.
  cbv zeta in Hthm. destruct Hthm as (Hm & Hd & Hq & _). by repeat split.
Defined.

End Examples.

(** * More of the module *)

(** ** Invariants of the pending replies over whole histories *)

Section Histories.
Context {codec : Base64Codec} {uuids : UUIDSource}.

(** A callback of the session either is one of the calls of the first
    part, or only reports to the application. *)
Lemma occur_cases o s :
  (∃ c, exec (occur o) s = exec (call c) s)
  ∨ (∃ es,
       exec (occur o) s =
         {| pendingMessageReplies := pendingMessageReplies s;
            pendingDataReplies := pendingDataReplies s;
            mainQueue := mainQueue s;
            now := now s;
            uuidsDrawn := uuidsDrawn s;
            effects := effects s ++ es |}
       ∧ Forall (λ e, isInvocation e = false) es
       ∧ Forall (λ n, n ∈ declaredEvents ∧ n ≠ "onFileTransferProgress")
           (eventNames es)).
Proof.
  destruct o as [module callback|c]; [|left; by exists c].
  destruct callback as [state error| | |session| |message [handler|]
    |messageData [handler|] |context|userInfo|transfer error|url metadata
    |transfer error].
  all: try (right; eexists; split;
            [unfold exec; simpl; rewrite <-?app_assoc; reflexivity|];
            split; [by repeat constructor|];
            simpl; repeat constructor; by vm_compute).
  - left. by exists (DidReceiveMessageWithReply message handler).
  - left. by exists (DidReceiveMessageDataWithReply messageData handler).
Qed.

Lemma history_app os os' s : history (os ++ os') s = history os' (history os s).
Proof. revert s. induction os as [|o os IH]; intros s; [done|]. apply IH. Qed.

Lemma registers_queues c k v s :
  registers c k v →
  {| fireAt := now s + replyExpiry;
     block := expiryOf k (uuidString (uuidsDrawn s)) |}
    ∈ mainQueue (exec (call c) s).
Proof.
  destruct c, k; try done; intros _.
  - rewrite exec_registerMessage. simpl. rewrite elem_of_app.
    right. apply list_elem_of_singleton. done.
  - rewrite exec_registerData. simpl. rewrite elem_of_app.
    right. apply list_elem_of_singleton. done.
Qed.

(** *** Handlers called against registrations made *)

Lemma invocations_app es es' :
  invocations (es ++ es') = (invocations es + invocations es')%nat.
Proof. unfold invocations. by rewrite List.filter_app, length_app. Qed.

Lemma reports_invoke_nothing c es : reports c = Some es → invocations es = 0%nat.
Proof. destruct c; try done; by intros [= <-]. Qed.

Lemma size_after_delete {V} (m : gmap string V) i :
  (size (delete i m) ≤ size m)%nat.
Proof. apply map_subseteq_size, delete_subseteq. Qed.

Lemma size_before_delete {V} (m : gmap string V) i x :
  m !! i = Some x → size m = S (size (delete i m)).
Proof.
  intros Hx. rewrite <-(insert_delete_id m i x) at 1 by done.
  apply map_size_insert_None, lookup_delete_eq.
Qed.

Lemma size_after_insert {V} (m : gmap string V) i x :
  (size (<[i:=x]> m) ≤ S (size m))%nat.
Proof. rewrite map_size_insert. destruct (m !! i); simpl; lia. Qed.

Lemma runBlocks_sizes bs s :
  (size (pendingMessageReplies (exec (runBlocks bs) s))
     ≤ size (pendingMessageReplies s))%nat
  ∧ (size (pendingDataReplies (exec (runBlocks bs) s))
       ≤ size (pendingDataReplies s))%nat.
Proof.
  revert s. induction bs as [|b bs IH]; intros s; [done|].
  rewrite runBlocks_cons.
  destruct (IH (exec (runBlock (block b)) s)) as [Hm Hd].
  destruct (block b) as [X|X]; simpl in *.
  - pose proof (size_after_delete (pendingMessageReplies s) X). split; lia.
  - pose proof (size_after_delete (pendingDataReplies s) X). split; lia.
Qed.

Lemma accounted_call c s : accounted s → accounted (exec (call c) s).
Proof.
  unfold accounted. intros Hs.
  destruct (reports c) as [es|] eqn:Hr.
  { rewrite (exec_reports _ _ _ Hr). simpl.
    rewrite invocations_app, (reports_invoke_nothing _ _ Hr). lia. }
  destruct c; try done.
  - rewrite exec_registerMessage. simpl. rewrite invocations_app. simpl.
    pose proof (size_after_insert (pendingMessageReplies s)
                  (uuidString (uuidsDrawn s)) replyHandler).
    unfold invocations at 2. simpl. lia.
  - rewrite exec_registerData. simpl. rewrite invocations_app. simpl.
    pose proof (size_after_insert (pendingDataReplies s)
                  (uuidString (uuidsDrawn s)) replyHandler).
    unfold invocations at 2. simpl. lia.
  - rewrite exec_replyToMessage. simpl. rewrite invocations_app.
    destruct (pendingMessageReplies s !! replyId) as [handler|] eqn:Hp.
    + rewrite (size_before_delete _ _ _ Hp) in Hs.
      unfold invocations at 2. simpl. lia.
    + pose proof (size_after_delete (pendingMessageReplies s) replyId).
      unfold invocations at 2. simpl. lia.
  - rewrite exec_replyToMessageData.
    destruct (dataBase64Encoded base64Data); [|done].
    simpl. rewrite invocations_app.
    destruct (pendingDataReplies s !! replyId) as [handler|] eqn:Hp.
    + rewrite (size_before_delete _ _ _ Hp) in Hs.
      unfold invocations at 2. simpl. lia.
    + pose proof (size_after_delete (pendingDataReplies s) replyId).
      unfold invocations at 2. simpl. lia.
  - change (exec (call (Elapse dt)) s) with (exec (elapse dt) s).
    destruct (elapse_frame dt s) as (_ & _ & -> & ->).
    rewrite elapse_unfold.
    match goal with |- context [exec (runBlocks ?bs) ?s0] =>
      destruct (runBlocks_sizes bs s0) as [Hm Hd] end.
    simpl in *. lia.
Qed.

Lemma invocations_none es :
  Forall (λ e, isInvocation e = false) es → invocations es = 0%nat.
Proof.
  unfold invocations. induction 1 as [|e es He _ IH]; [done|].
  simpl. by rewrite He.
Qed.

Lemma accounted_occur o s : accounted s → accounted (exec (occur o) s).
Proof.
  intros Hs. destruct (occur_cases o s) as [[c ->]|(es & -> & Hes & _)].
  - by apply accounted_call.
  - unfold accounted in *. simpl.
    rewrite invocations_app, (invocations_none _ Hes). lia.
Qed.

(** X2: in every state the module can reach, the calls made to reply
    handlers so far and the handlers still stored are together no more
    than the registrations made (one UUID is drawn for each): a call to a
    handler always uses up a registration. *)
Theorem handler_calls_bounded_by_registrations (os : list Occurrence) :
  let s := history os initialState in
  (invocations (effects s)
   + size (pendingMessageReplies s) + size (pendingDataReplies s)
   ≤ uuidsDrawn s)%nat.
Proof.
  assert (∀ s, accounted s → accounted (history os s)) as Hall.
  { induction os as [|o os IH]; intros s Hs; [done|].
    simpl. by apply IH, accounted_occur. }
  apply Hall. unfold accounted. simpl. rewrite !map_size_empty.
  unfold invocations. simpl. lia.
Qed.

(** *** The events sent *)

Lemma eventNames_app es es' :
  eventNames (es ++ es') = eventNames es ++ eventNames es'.
Proof. apply omap_app. Qed.

Lemma call_events c s :
  ∃ es, effects (exec (call c) s) = effects s ++ es
        ∧ Forall (λ n, n ∈ declaredEvents ∧ n ≠ "onFileTransferProgress")
            (eventNames es).
Proof.
  destruct (reports c) as [es|] eqn:Hr.
  { rewrite (exec_reports _ _ _ Hr). exists es. split; [done|].
    destruct c; try done; injection Hr as <-; simpl;
      repeat constructor; by vm_compute. }
  destruct c; try done.
  - rewrite exec_registerMessage. eexists. split; [reflexivity|].
    simpl. repeat constructor; by vm_compute.
  - rewrite exec_registerData. eexists. split; [reflexivity|].
    simpl. repeat constructor; by vm_compute.
  - rewrite exec_replyToMessage. eexists. split; [reflexivity|].
    destruct (pendingMessageReplies s !! replyId); constructor.
  - rewrite exec_replyToMessageData.
    destruct (dataBase64Encoded base64Data).
    + eexists. split; [reflexivity|].
      destruct (pendingDataReplies s !! replyId); constructor.
    + exists []. split; [by rewrite app_nil_r|constructor].
  - exists []. rewrite app_nil_r. split; [|constructor].
    apply (elapse_frame dt s).
Qed.

(** X3: every event the module sends, in any history, is one it declares
    in [Events(...)], is declared by the Android stub too, and has an
    [add...Listener] in the TypeScript wrapper; and no history makes the
    module send [onFileTransferProgress], which it declares and the
    wrapper offers a listener for: no delegate callback leads to
    [dispatchFileTransferProgress]. *)
Theorem events_sent_are_declared (os : list Occurrence) :
  Forall (λ name,
            name ∈ declaredEvents
            ∧ name ∈ Android.declaredEvents
            ∧ name ∈ Wrapper.listenerEvents.*2
            ∧ name ≠ "onFileTransferProgress")
    (eventNames (effects (history os initialState))).
Proof.
  assert (∀ s,
            Forall (λ n, n ∈ declaredEvents ∧ n ≠ "onFileTransferProgress")
              (eventNames (effects s)) →
            Forall (λ n, n ∈ declaredEvents ∧ n ≠ "onFileTransferProgress")
              (eventNames (effects (history os s)))) as Hall.
  { induction os as [|o os IH]; intros s Hs; [done|].
    simpl. apply IH.
    destruct (occur_cases o s) as [[c ->]|(es & -> & _ & Hes)].
    - destruct (call_events c s) as (es & -> & Hes).
      rewrite eventNames_app. by apply Forall_app.
    - simpl. rewrite eventNames_app. by apply Forall_app. }
  eapply Forall_impl; [apply Hall; constructor|].
  intros name [Hin Hne]. by repeat split.
Qed.

End Histories.

(** ** The main queue running late *)

Section LateQueue.
Context {codec : Base64Codec} {uuids : UUIDSource}.

Lemma quiet_id s :
  s = {| pendingMessageReplies := pendingMessageReplies s;
         pendingDataReplies := pendingDataReplies s;
         mainQueue := mainQueue s;
         now := now s + 0;
         uuidsDrawn := uuidsDrawn s;
         effects := effects s ++ [] |}.
Proof. destruct s. simpl. by rewrite N.add_0_r, app_nil_r. Qed.

Lemma move_cases m s : MoveKind m s.
Proof.
  destruct m as [[module callback|c]|dt|i].
  - destruct callback as [state error| | |session| |message [handler|]
      |messageData [handler|] |context|userInfo|transfer error|url metadata
      |transfer error].
    all: try (match goal with |- MoveKind ?m _ =>
                apply IsQuiet with 0
                  (drop (length (effects s)) (effects (exec (move m) s)))
              end;
              unfold exec; simpl;
              rewrite N.add_0_r, <-?(assoc_L (++)), drop_app_length;
              reflexivity).
    + apply IsCall with (DidReceiveMessageWithReply message handler); [done|].
      by intros [].
    + apply IsCall with (DidReceiveMessageDataWithReply messageData handler);
        [done|]. by intros [].
  - by apply IsCall with c.
  - apply IsQuiet with dt []. unfold exec. simpl. by rewrite app_nil_r.
  - destruct (mainQueue s !! i) as [b|] eqn:Hb.
    + destruct (decide (fireAt b ≤ now s)) as [Hdue|Hwait].
      * apply IsBlock with i b; [done|done|].
        unfold exec. simpl. unfold mainQueueRuns. by rewrite Hb, decide_True.
      * apply IsQuiet with 0 []. unfold exec. simpl. unfold mainQueueRuns.
        rewrite Hb, decide_False by done. apply quiet_id.
    + apply IsQuiet with 0 []. unfold exec. simpl. unfold mainQueueRuns.
      rewrite Hb. apply quiet_id.
Qed.

Lemma moves_app ms ms' s : moves (ms ++ ms') s = moves ms' (moves ms s).
Proof. revert s. induction ms as [|m ms IH]; intros s; [done|]. apply IH. Qed.

Lemma moves_of_history os s : moves (Occurs <$> os) s = history os s.
Proof. revert s. induction os as [|o os IH]; intros s; [done|]. apply IH. Qed.

Lemma move_counters m s :
  (uuidsDrawn s ≤ uuidsDrawn (exec (move m) s))%nat
  ∧ now s ≤ now (exec (move m) s).
Proof.
  destruct (move_cases m s) as [c -> _|dt es ->|i b _ _ ->].
  - apply call_counters.
  - simpl. split; lia.
  - destruct (runBlock_frame (block b)
      {| pendingMessageReplies := pendingMessageReplies s;
         pendingDataReplies := pendingDataReplies s;
         mainQueue := delete i (mainQueue s);
         now := now s;
         uuidsDrawn := uuidsDrawn s;
         effects := effects s |}) as (_ & -> & -> & _).
    simpl. split; lia.
Qed.

Lemma moves_counters ms s :
  (uuidsDrawn s ≤ uuidsDrawn (moves ms s))%nat ∧ now s ≤ now (moves ms s).
Proof.
  revert s. induction ms as [|m ms IH]; intros s; [split; simpl; lia|].
  simpl. destruct (IH (exec (move m) s)), (move_counters m s). split; lia.
Qed.

(** What running one block does to an entry. *)
Lemma runBlock_entry bl s k Y :
  pendingEntry k (exec (runBlock bl) s) Y =
    if decide (bl = expiryOf k Y) then None else pendingEntry k s Y.
Proof.
  destruct k; unfold pendingEntry, expiryOf.
  - rewrite runBlock_message. by case_decide.
  - rewrite runBlock_data. by case_decide.
Qed.

Lemma elem_of_delete_other {A} (l : list A) i x y :
  l !! i = Some x → y ∈ l → y ≠ x → y ∈ delete i l.
Proof.
  intros Hi [j Hj]%list_elem_of_lookup Hne.
  destruct (decide (j < i)%nat) as [Hlt|Hge].
  - apply list_elem_of_lookup. exists j. by rewrite list_lookup_delete_lt.
  - assert (j ≠ i) by (intros ->; congruence).
    apply list_elem_of_lookup. exists (pred j).
    rewrite list_lookup_delete_ge by lia.
    by replace (S (pred j)) with j by lia.
Qed.

(** A block that waits keeps waiting through a call, unless the call is
    time passing up to the time the block is due. *)
Lemma queue_through_call c s b :
  b ∈ mainQueue s →
  b ∈ mainQueue (exec (call c) s)
  ∨ ∃ dt, c = Elapse dt ∧ fireAt b ≤ now s + dt.
Proof.
  intros Hb.
  destruct (decide (fireAt b ≤ now (exec (call c) s))) as [Hdue|Hwait];
    [|left; by apply queue_kept].
  destruct (reports c) as [es|] eqn:Hr.
  { left. by rewrite (exec_reports _ _ _ Hr). }
  destruct c; try done.
  - left. rewrite exec_registerMessage. simpl. rewrite elem_of_app. by left.
  - left. rewrite exec_registerData. simpl. rewrite elem_of_app. by left.
  - left. by rewrite exec_replyToMessage.
  - left. rewrite exec_replyToMessageData.
    by destruct (dataBase64Encoded base64Data).
  - right. exists dt. split; [done|]. by rewrite call_now in Hdue.
Qed.

Section UniqueIds.
Hypothesis uuid_unique : Inj (=) (=) uuidString.

Lemma wellFormed_move m s : wellFormed s → wellFormed (exec (move m) s).
Proof.
  intros Hw. destruct (move_cases m s) as [c -> _|dt es ->|i b Hi _ ->].
  - by apply wellFormed_call.
  - destruct Hw as [We Wq Wd]. split.
    + intros k Y Hv. apply (We k Y). by destruct k.
    + done.
    + done.
  - destruct Hw as [We Wq Wd].
    set (s' := {| pendingMessageReplies := pendingMessageReplies s;
                  pendingDataReplies := pendingDataReplies s;
                  mainQueue := delete i (mainQueue s);
                  now := now s;
                  uuidsDrawn := uuidsDrawn s;
                  effects := effects s |}).
    assert (Hold : ∀ k Y, is_Some (pendingEntry k (exec (runBlock (block b)) s') Y)
                          → is_Some (pendingEntry k s Y)).
    { intros k Y. rewrite runBlock_entry. case_decide; [by intros [? ?]|].
      by destruct k. }
    destruct (runBlock_frame (block b) s') as (Hq & _ & Hu & _).
    split.
    + intros k Y Hv%Hold. destruct (We k Y Hv) as (j & Hj & ->).
      exists j. by rewrite Hu.
    + intros b'. rewrite Hq. simpl. intros Hb'%list_elem_of_delete_inv.
      destruct (Wq b' Hb') as (j & Hj & ->). exists j. by rewrite Hu.
    + intros Y H1%is_Some_message%Hold%is_Some_message
               H2%is_Some_data%Hold%is_Some_data.
      by apply (Wd Y).
Qed.

Lemma wellFormed_moves ms s : wellFormed s → wellFormed (moves ms s).
Proof.
  revert s. induction ms as [|m ms IH]; intros s Hw; [done|].
  simpl. by apply IH, wellFormed_move.
Qed.

(** An entry nobody replies to stays as long as the clock is short of
    the time its expiry block is due, however the main queue runs. *)
Lemma pending_before_deadline k Y v D later s :
  pendingEntry k s Y = Some v →
  drawn s Y →
  (∀ b, b ∈ mainQueue s → block b = expiryOf k Y → D ≤ fireAt b) →
  Forall (λ m, ¬ moveRepliesTo m k Y) later →
  now (moves later s) < D →
  pendingEntry k (moves later s) Y = Some v.
Proof.
  revert s. induction later as [|m ms IH]; intros s Hv Hd Hq Hnr Hnow; [done|].
  apply Forall_cons in Hnr as [Hm Hms]. simpl in *.
  assert (Hs' : now (exec (move m) s) < D).
  { destruct (moves_counters ms (exec (move m) s)). lia. }
  assert (Hfresh : Y ≠ uuidString (uuidsDrawn s)).
  { intros ->. by apply (drawn_not_next uuid_unique s). }
  destruct (move_cases m s) as [c Hc Hr|dt es Hc|i b Hi Hdue Hc];
    rewrite Hc in *; clear Hc.
  - apply IH; try done.
    + apply entry_kept; try done; [by intros ?%Hr|].
      intros (b & Hb & [Hdue Hin]%list_elem_of_filter)%list_elem_of_fmap.
      specialize (Hq b Hin (eq_sym Hb)). lia.
    + eapply drawn_mono; [apply call_counters|done].
    + intros b Hb Hblock.
      destruct (queue_after_call _ _ _ Hb) as [Hold|(k' & _ & ->)]; [by apply Hq|].
      simpl in Hblock. apply (f_equal blockId) in Hblock.
      rewrite !blockId_expiryOf in Hblock. by destruct Hfresh.
  - apply IH; try done; by destruct k.
  - set (s' := {| pendingMessageReplies := pendingMessageReplies s;
                  pendingDataReplies := pendingDataReplies s;
                  mainQueue := delete i (mainQueue s);
                  now := now s;
                  uuidsDrawn := uuidsDrawn s;
                  effects := effects s |}) in *.
    destruct (runBlock_frame (block b) s') as (Hq' & Hn' & Hu' & _).
    apply IH; try done.
    + rewrite runBlock_entry, decide_False; [by destruct k|].
      intros Hb. apply list_elem_of_lookup_2 in Hi.
      specialize (Hq b Hi Hb). rewrite Hn' in Hs'. simpl in Hs'. lia.
    + destruct Hd as (j & Hj & ->). exists j. by rewrite Hu'.
    + intros b'. rewrite Hq'. simpl. intros Hb'%list_elem_of_delete_inv.
      by apply Hq.
Qed.

(** From its registration on, an id has no entry unless its expiry
    block is still waiting. *)
Lemma gone_once_block_ran k Y B later s :
  drawn s Y →
  block B = expiryOf k Y →
  pendingEntry k s Y = None ∨ B ∈ mainQueue s →
  pendingEntry k (moves later s) Y = None ∨ B ∈ mainQueue (moves later s).
Proof.
  intros Hd HB. revert s Hd.
  induction later as [|m ms IH]; intros s Hd Hinv; [done|].
  simpl.
  assert (Hfresh : Y ≠ uuidString (uuidsDrawn s)).
  { intros ->. by apply (drawn_not_next uuid_unique s). }
  apply IH.
  { eapply drawn_mono; [apply move_counters|done]. }
  destruct (move_cases m s) as [c Hc _|dt es Hc|i b Hi Hdue Hc];
    rewrite Hc; clear Hc.
  - assert (Hgone : pendingEntry k s Y = None →
                    pendingEntry k (exec (call c) s) Y = None).
    { intros Hn. destruct (pendingEntry k (exec (call c) s) Y) as [v|] eqn:Hv;
        [|done].
      destruct (entry_after_call _ _ _ _ _ Hv) as [Hold|[-> _]]; [|done].
      by rewrite Hn in Hold. }
    destruct Hinv as [Hn|Hb]; [left; by apply Hgone|].
    destruct (queue_through_call c s B Hb) as [Hkept|(dt & -> & Hdue)];
      [by right|left].
    apply entry_expired. apply list_elem_of_fmap. exists B.
    split; [done|]. by apply list_elem_of_filter.
  - destruct Hinv as [Hn|Hb]; [left; by destruct k|by right].
  - set (s' := {| pendingMessageReplies := pendingMessageReplies s;
                  pendingDataReplies := pendingDataReplies s;
                  mainQueue := delete i (mainQueue s);
                  now := now s;
                  uuidsDrawn := uuidsDrawn s;
                  effects := effects s |}).
    destruct (runBlock_frame (block b) s') as (Hq' & _).
    rewrite runBlock_entry, Hq'. simpl.
    case_decide as Hblock; [by left|].
    destruct Hinv as [Hn|Hb]; [left; by destruct k|right].
    apply elem_of_delete_other with b; [done|done|]. congruence.
Qed.

End UniqueIds.

(** *** An entry stays until its block runs *)

Lemma filter_filter_length {A} (P Q : A → Prop)
    `{!∀ x, Decision (P x)} `{!∀ x, Decision (Q x)} (l : list A) :
  (length (filter P (filter Q l)) ≤ length (filter P l))%nat.
Proof.
  induction l as [|a l IH]; [done|].
  destruct (decide (Q a)), (decide (P a));
    rewrite ?(filter_cons_True Q), ?(filter_cons_False Q),
      ?(filter_cons_True P), ?(filter_cons_False P) by done; simpl; lia.
Qed.

Lemma filter_filter_single {A} (P Q : A → Prop)
    `{!∀ x, Decision (P x)} `{!∀ x, Decision (Q x)} (l : list A) x :
  (length (filter P l) ≤ 1)%nat → x ∈ l → P x → ¬ Q x →
  filter P (filter Q l) = [].
Proof.
  induction l as [|a l IH]; [done|].
  intros Hlen [->|Hin]%elem_of_cons HP HQ.
  - rewrite (filter_cons_False Q) by done.
    rewrite (filter_cons_True P) in Hlen by done. simpl in Hlen.
    pose proof (filter_filter_length P Q l) as Hle.
    destruct (filter P (filter Q l)); [done|simpl in Hle; lia].
  - destruct (decide (P a)) as [Ha|Ha].
    + rewrite (filter_cons_True P) in Hlen by done. simpl in Hlen.
      assert (Hx : x ∈ filter P l) by by apply list_elem_of_filter.
      destruct (filter P l); [by apply elem_of_nil in Hx|simpl in Hlen; lia].
    + rewrite (filter_cons_False P) in Hlen by done.
      destruct (decide (Q a)).
      * rewrite (filter_cons_True Q), (filter_cons_False P) by done. by apply IH.
      * rewrite (filter_cons_False Q) by done. by apply IH.
Qed.

Lemma filter_delete_other {A} (P : A → Prop) `{!∀ x, Decision (P x)}
    (l : list A) i x :
  l !! i = Some x → ¬ P x → filter P (delete i l) = filter P l.
Proof.
  intros Hi Hx. rewrite <-(take_drop_middle l i x Hi) at 2.
  by rewrite delete_take_drop, !filter_app, (filter_cons_False P).
Qed.

Lemma filter_delete_single {A} (P : A → Prop) `{!∀ x, Decision (P x)}
    (l : list A) i x :
  l !! i = Some x → P x → (length (filter P l) ≤ 1)%nat →
  filter P (delete i l) = [].
Proof.
  intros Hi Hx. rewrite <-(take_drop_middle l i x Hi) at 1.
  rewrite delete_take_drop, !filter_app, (filter_cons_True P) by done.
  rewrite length_app. simpl.
  destruct (filter P (take i l)), (filter P (drop (S i) l)); simpl;
    intros Hlen; [done|lia..].
Qed.

Section StaysUntilRun.
Hypothesis uuid_unique : Inj (=) (=) uuidString.

Lemma blocks_through_call c s k Y :
  Y ≠ uuidString (uuidsDrawn s) →
  expiryBlocksOf k Y (mainQueue (exec (call c) s)) = expiryBlocksOf k Y (mainQueue s)
  ∨ ∃ dt, c = Elapse dt
          ∧ mainQueue (exec (call c) s) = waitingAt (now s + dt) (mainQueue s).
Proof.
  intros Hfresh. unfold expiryBlocksOf.
  destruct (reports c) as [es|] eqn:Hr.
  { left. by rewrite (exec_reports _ _ _ Hr). }
  destruct c; try done.
  - left. rewrite exec_registerMessage. simpl.
    rewrite filter_app, (filter_singleton_False _ _ []); [by rewrite app_nil_r|].
    simpl. intros Hb%(f_equal blockId). rewrite blockId_expiryOf in Hb.
    by destruct Hfresh.
  - left. rewrite exec_registerData. simpl.
    rewrite filter_app, (filter_singleton_False _ _ []); [by rewrite app_nil_r|].
    simpl. intros Hb%(f_equal blockId). rewrite blockId_expiryOf in Hb.
    by destruct Hfresh.
  - left. by rewrite exec_replyToMessage.
  - left. rewrite exec_replyToMessageData.
    by destruct (dataBase64Encoded base64Data).
  - right. exists dt. split; [done|]. apply elapse_frame.
Qed.

Lemma entry_through_call c s k Y v :
  pendingEntry k s Y = Some v →
  Y ≠ uuidString (uuidsDrawn s) →
  ¬ repliesTo c k Y →
  pendingEntry k (exec (call c) s) Y = Some v
  ∨ ∃ dt, c = Elapse dt
          ∧ expiryOf k Y ∈ block <$> dueAt (now s + dt) (mainQueue s).
Proof.
  intros Hv Hfresh Hnr.
  destruct (decide (expiryOf k Y
                    ∈ block <$> dueAt (now (exec (call c) s)) (mainQueue s)))
    as [Hdue|Hnd]; [|left; by apply entry_kept].
  destruct (reports c) as [es|] eqn:Hr.
  { left. rewrite (exec_reports _ _ _ Hr). by destruct k. }
  destruct c; try done.
  - left. rewrite exec_registerMessage. destruct k; simpl; [|done].
    by rewrite lookup_insert_ne.
  - left. rewrite exec_registerData. destruct k; simpl; [done|].
    by rewrite lookup_insert_ne.
  - left. rewrite exec_replyToMessage. destruct k; simpl; [|done].
    by rewrite lookup_delete_ne.
  - left. rewrite exec_replyToMessageData.
    destruct (dataBase64Encoded base64Data); [|done].
    destruct k; simpl; [done|]. by rewrite lookup_delete_ne.
  - right. exists dt. split; [done|]. by rewrite call_now in Hdue.
Qed.

(** An entry nobody replies to is there as long as its expiry block
    has not run: it stays past the time the block is due when the main
    queue is late. *)
Lemma pending_while_block_waits k Y v later s :
  drawn s Y →
  (length (expiryBlocksOf k Y (mainQueue s)) ≤ 1)%nat →
  pendingEntry k s Y = Some v ∨ expiryBlocksOf k Y (mainQueue s) = [] →
  Forall (λ m, ¬ moveRepliesTo m k Y) later →
  pendingEntry k (moves later s) Y = Some v
  ∨ expiryBlocksOf k Y (mainQueue (moves later s)) = [].
Proof.
  revert s. induction later as [|m ms IH]; intros s Hd Hlen Hinv Hnr; [done|].
  apply Forall_cons in Hnr as [Hm Hms]. simpl.
  assert (Hfresh : Y ≠ uuidString (uuidsDrawn s)).
  { intros ->. by apply (drawn_not_next uuid_unique s). }
  assert (Hd' : drawn (exec (move m) s) Y).
  { eapply drawn_mono; [apply move_counters|done]. }
  destruct (move_cases m s) as [c Hc Hr|dt es Hc|i b Hi Hdue Hc];
    rewrite Hc in *; clear Hc.
  - assert (Hle : (length (expiryBlocksOf k Y (mainQueue (exec (call c) s)))
                   ≤ length (expiryBlocksOf k Y (mainQueue s)))%nat).
    { destruct (blocks_through_call c s k Y Hfresh) as [->|(dt & -> & ->)];
        [done|]. apply filter_filter_length. }
    apply IH; try done; [lia|].
    destruct Hinv as [Hv|Hnil].
    + destruct (entry_through_call c s k Y v Hv Hfresh) as [?|(dt & -> & Hdue)];
        [by intros ?%Hr|by left|right].
      apply list_elem_of_fmap in Hdue
        as (b & Hb & [Hdue Hin]%list_elem_of_filter).
      change (exec (call (Elapse dt)) s) with (exec (elapse dt) s).
      destruct (elapse_frame dt s) as (-> & _).
      apply filter_filter_single with b; [done|done|done|].
      intros Hwait. by apply Hwait.
    + right. rewrite Hnil in Hle.
      destruct (expiryBlocksOf k Y (mainQueue (exec (call c) s)));
        [done|simpl in Hle; lia].
  - apply IH; try done.
  - set (s' := {| pendingMessageReplies := pendingMessageReplies s;
                  pendingDataReplies := pendingDataReplies s;
                  mainQueue := delete i (mainQueue s);
                  now := now s;
                  uuidsDrawn := uuidsDrawn s;
                  effects := effects s |}) in *.
    destruct (runBlock_frame (block b) s') as (Hq' & _).
    destruct (decide (block b = expiryOf k Y)) as [Hb|Hb].
    + assert (Hnil : expiryBlocksOf k Y (mainQueue (exec (runBlock (block b)) s')) = []).
      { rewrite Hq'. by apply filter_delete_single with b. }
      apply IH; try done; [by rewrite Hnil; simpl; lia|by right].
    + assert (Hsame : expiryBlocksOf k Y (mainQueue (exec (runBlock (block b)) s'))
                      = expiryBlocksOf k Y (mainQueue s)).
      { rewrite Hq'. by apply filter_delete_other with b. }
      apply IH; try done; rewrite Hsame; [done|].
      destruct Hinv as [Hv|Hnil]; [left|by right].
      rewrite runBlock_entry, decide_False by done. by destruct k.
Qed.

End StaysUntilRun.

(** *** Every pending reply has its block waiting *)

Lemma expiryQueued_move m s : expiryQueued s → expiryQueued (exec (move m) s).
Proof.
  intros Hs k Y v Hv.
  destruct (move_counters m s) as [_ Hnow].
  destruct (move_cases m s) as [c Hc _|dt es Hc|i b0 Hi Hdue Hc];
    rewrite Hc in *; clear Hc.
  - destruct (entry_after_call _ _ _ _ _ Hv) as [Hold|[-> Hreg]].
    + destruct (Hs _ _ _ Hold) as (b & Hb & Hblock & Hle).
      destruct (queue_through_call c s b Hb) as [Hkept|(dt & -> & Hdue)].
      * exists b. split; [done|]. split; [done|]. lia.
      * exfalso.
        assert (pendingEntry k (exec (elapse dt) s) Y = None) as Hgone.
        { apply entry_expired. apply list_elem_of_fmap. exists b.
          split; [done|]. by apply list_elem_of_filter. }
        change (exec (call (Elapse dt)) s) with (exec (elapse dt) s) in Hv.
        by rewrite Hgone in Hv.
    + eexists. split; [by apply registers_queues with v|].
      split; [done|]. simpl. lia.
  - destruct (Hs k Y v) as (b & Hb & Hblock & Hle); [by destruct k|].
    exists b. simpl in *. split; [done|]. split; [done|]. lia.
  - set (s' := {| pendingMessageReplies := pendingMessageReplies s;
                  pendingDataReplies := pendingDataReplies s;
                  mainQueue := delete i (mainQueue s);
                  now := now s;
                  uuidsDrawn := uuidsDrawn s;
                  effects := effects s |}) in *.
    destruct (runBlock_frame (block b0) s') as (Hq' & Hn' & _).
    rewrite runBlock_entry in Hv. case_decide as Hd; [done|].
    destruct (Hs k Y v) as (b & Hb & Hblock & Hle); [by destruct k|].
    exists b. rewrite Hq', Hn'. simpl. split; [|done].
    apply elem_of_delete_other with b0; [done|done|]. congruence.
Qed.

(** *** Expiry after 30 seconds *)

Lemma block_waits_until_due B later s :
  B ∈ mainQueue s →
  now (moves later s) < fireAt B →
  B ∈ mainQueue (moves later s).
Proof.
  revert s. induction later as [|m ms IH]; intros s Hb Hnow; [done|].
  simpl in *.
  assert (Hs' : now (exec (move m) s) < fireAt B).
  { destruct (moves_counters ms (exec (move m) s)). lia. }
  apply IH; [|done].
  destruct (move_cases m s) as [c Hc _|dt es Hc|i b Hi Hdue Hc];
    rewrite Hc in *; clear Hc.
  - destruct (queue_through_call c s B Hb) as [?|(dt & -> & Hdue)]; [done|].
    rewrite call_now in Hs'. lia.
  - done.
  - match goal with |- context [exec (runBlock ?bl) ?s0] =>
      destruct (runBlock_frame bl s0) as (Hq' & Hn' & _) end.
    rewrite Hq'. simpl. apply elem_of_delete_other with b; [done|done|].
    intros ->. rewrite Hn' in Hs'. simpl in Hs'. lia.
Qed.

Lemma entry_delivered k v Y s :
  pendingEntry k s Y = Some v → replyDelivered v Y s.
Proof.
  intros Hp. destruct v as [handler|handler]; simpl.
  - intros reply. apply pendingEntry_inl in Hp as [_ Hp].
    unfold exec, result. by rewrite (replyToMessage_found _ _ _ _ Hp).
  - intros base64Data data Hd. apply pendingEntry_inr in Hp as [_ Hp].
    unfold exec, result. by rewrite (replyToMessageData_found _ _ _ _ _ Hd Hp).
Qed.

Lemma no_entry_nothing_found k Y s :
  pendingEntry k s Y = None → replyFindsNothing k Y s.
Proof.
  intros Hp. destruct k; simpl in *.
  - intros reply. apply replyToMessage_absent.
    by destruct (pendingMessageReplies s !! Y).
  - intros base64Data. apply replyToMessageData_absent.
    by destruct (pendingDataReplies s !! Y).
Qed.

(** C3, as the code has it: an entry registered at time T0 has its
    expiry block put on the main queue, due at T0 + 30 s.  A block that
    runs calls no handler and sends nothing.  The block does not run
    before T0 + 30 s.  As long as nobody replies to the id and the
    block has not run, which includes all the time before T0 + 30 s,
    the entry is pending and a reply reaches the handler; once the block
    has run the entry is gone for good and a reply finds nothing.  When
    the main queue has run every block that was due, that is so from
    T0 + 30 s on. *)
Theorem unanswered_entry_expires_after_30s
    (pre : list Move) (c : Call) (k : Kind)
    (v : MessageReplyHandler + DataReplyHandler) (later : list Move) :
  Inj (=) (=) uuidString →
  registers c k v →
  let s0 := moves pre initialState in
  let replyId := uuidString (uuidsDrawn s0) in
  let deadline := now s0 + replyExpiry in
  let expiry := {| fireAt := deadline; block := expiryOf k replyId |} in
  let s1 := exec (call c) s0 in
  let s2 := moves later s1 in
  let unanswered := Forall (λ m, ¬ moveRepliesTo m k replyId) later in
  (pendingEntry k s1 replyId = Some v ∧ expiry ∈ mainQueue s1)
  ∧ ((∀ i s, effects (exec (mainQueueRuns i) s) = effects s)
     ∧ (∀ dt s, effects (exec (elapse dt) s) = effects s))
  ∧ (now s2 < deadline → expiry ∈ mainQueue s2)
  ∧ (unanswered → now s2 < deadline →
     pendingEntry k s2 replyId = Some v ∧ replyDelivered v replyId s2)
  ∧ (unanswered → expiry ∈ mainQueue s2 →
     pendingEntry k s2 replyId = Some v ∧ replyDelivered v replyId s2)
  ∧ (expiry ∉ mainQueue s2 →
     pendingEntry k s2 replyId = None ∧ replyFindsNothing k replyId s2)
  ∧ (punctual s2 → deadline ≤ now s2 →
     pendingEntry k s2 replyId = None ∧ replyFindsNothing k replyId s2).
Proof.
  intros Hinj Hreg s0 replyId deadline expiry s1 s2 unanswered.
  assert (Hw0 : wellFormed s0) by apply (wellFormed_moves Hinj), wellFormed_initial.
  assert (Hnotdrawn := drawn_not_next Hinj s0). fold replyId in Hnotdrawn.
  assert (Hentry : pendingEntry k s1 replyId = Some v).
  { subst s1. destruct c, k; try done; simpl in Hreg; subst v.
    - rewrite exec_registerMessage. simpl. by rewrite lookup_insert_eq.
    - rewrite exec_registerData. simpl. by rewrite lookup_insert_eq. }
  assert (Hqueue : mainQueue s1 = mainQueue s0 ++ [expiry]).
  { subst s1. by destruct c, k. }
  assert (Hin : expiry ∈ mainQueue s1).
  { rewrite Hqueue, elem_of_app. right. by apply list_elem_of_singleton. }
  assert (Hdrawn : drawn s1 replyId).
  { exists (uuidsDrawn s0). split; [|done]. subst s1.
    rewrite (registers_draws _ _ _ s0 Hreg). lia. }
  assert (Hnone : expiryBlocksOf k replyId (mainQueue s0) = []).
  { unfold expiryBlocksOf.
    destruct (filter _ (mainQueue s0)) as [|b bs] eqn:Hf; [done|].
    assert (Hb : b ∈ filter (λ b, block b = expiryOf k replyId) (mainQueue s0))
      by (rewrite Hf; apply list_elem_of_here).
    apply list_elem_of_filter in Hb as [Hblock Hb].
    destruct Hnotdrawn. rewrite <-(blockId_expiryOf k replyId), <-Hblock.
    by apply (wf_queue _ Hw0). }
  assert (Hone : expiryBlocksOf k replyId (mainQueue s1) = [expiry]).
  { unfold expiryBlocksOf in *.
    by rewrite Hqueue, filter_app, Hnone, (filter_singleton_True _ _ []). }
  assert (Hwaits : unanswered → expiry ∈ mainQueue s2 →
                   pendingEntry k s2 replyId = Some v).
  { intros Hnr Hq.
    destruct (pending_while_block_waits Hinj k replyId v later s1)
      as [Hp|Hnil]; try done.
    - by rewrite Hone.
    - by left.
    - exfalso. eapply (filter_nil_not_elem_of _ _ expiry); [exact Hnil|done|done]. }
  assert (Hgone : expiry ∉ mainQueue s2 → pendingEntry k s2 replyId = None).
  { intros Hq.
    destruct (gone_once_block_ran Hinj k replyId expiry later s1) as [?|?];
      try done. by right. }
  assert (Hnotbefore : now s2 < deadline → expiry ∈ mainQueue s2).
  { intros Hlt. by apply block_waits_until_due. }
  split; [done|]. split.
  { split.
    - intros i s. unfold exec, mainQueueRuns.
      destruct (mainQueue s !! i) as [b|]; [|done].
      case_decide; [|done].
      match goal with |- context [runBlock ?bl ?s0] =>
        apply (runBlock_frame bl s0) end.
    - intros dt s. apply elapse_frame. }
  split; [done|]. split.
  { intros Hnr Hlt. assert (Hp := Hwaits Hnr (Hnotbefore Hlt)).
    split; [done|]. by apply entry_delivered with k. }
  split.
  { intros Hnr Hq. assert (Hp := Hwaits Hnr Hq).
    split; [done|]. by apply entry_delivered with k. }
  split.
  { intros Hq. assert (Hp := Hgone Hq). split; [done|].
    by apply no_entry_nothing_found. }
  intros Hpunctual Hge.
  assert (Hq : expiry ∉ mainQueue s2).
  { intros Hq%Hpunctual. simpl in Hq. lia. }
  assert (Hp := Hgone Hq). split; [done|]. by apply no_entry_nothing_found.
Qed.

(** X1: in every state the module can reach, whatever the session and the
    application did and however late the main queue ran, each pending
    reply of either kind has its expiry block waiting on the main queue,
    due at most 30 seconds from now: no entry is left without the block
    that will remove it. *)
Theorem pending_reply_has_expiry_scheduled (ms : list Move) :
  expiryQueued (moves ms initialState).
Proof.
  assert (∀ s, expiryQueued s → expiryQueued (moves ms s)) as Hall.
  { induction ms as [|m ms IH]; intros s Hs; [done|].
    simpl. by apply IH, expiryQueued_move. }
  apply Hall. intros k Y v Hv. destruct k; simpl in Hv;
    by rewrite lookup_empty in Hv.
Qed.

End LateQueue.

(** ** A data message echoed *)

Section Echo.
Context {codec : Base64Codec} {uuids : UUIDSource}.

(** X4: when a data message arrives with a reply handler and the
    application replies with the very base64 string of the event, the
    handler gets the bytes that arrived, provided decoding undoes
    encoding on them. *)
Theorem data_message_echoed
    (s : ModuleState) (received : Data) (handler : DataReplyHandler) :
  dataBase64Encoded (base64EncodedString received) = Some received →
  let event := result (dispatchMessageDataReceived received (Some handler)) s in
  let s1 := exec (dispatchMessageDataReceived received (Some handler)) s in
  ∃ replyId base64Data,
    event !! "replyId" = Some (AnyString replyId)
    ∧ event !! "data" = Some (AnyString base64Data)
    ∧ result (replyToMessageData replyId base64Data) s1 = true
    ∧ emitted (replyToMessageData replyId base64Data) s1
      = [InvokeDataReply handler received].
Proof.
  intros Hround event s1.
  exists (uuidString (uuidsDrawn s)), (base64EncodedString received).
  assert (Hp : pendingDataReplies s1 !! uuidString (uuidsDrawn s) = Some handler)
    by apply lookup_insert_eq.
  split; [apply lookup_insert_eq|]. split; [done|].
  unfold emitted, exec, result.
  rewrite (replyToMessageData_found _ _ _ _ _ Hround Hp). simpl.
  split; [done|]. by rewrite drop_app_length.
Qed.

End Echo.

(** ** The asynchronous functions *)

#[local] Set Warnings "-clear-no-such-hyp,-unused-intro-pattern".

Section Async.
Context {codec : Base64Codec}.

Lemma isActivated_true session :
  isActivated session = true ↔ activationState session = activated.
Proof. unfold isActivated. by destruct (activationState session). Qed.

Lemma isActivated_false session :
  isActivated session = false ↔ activationState session ≠ activated.
Proof. unfold isActivated. by destruct (activationState session). Qed.

(** X5: [sendMessage] resolves exactly when there is a session, it is
    activated, the watch is reachable and the session hands back a reply,
    and then with that reply; otherwise the code of the rejection names
    the first guard that failed, in the order not supported, not
    activated, not reachable, send failed; and unless all three guards
    pass the message is not handed to the session at all. *)
Theorem sendMessage_outcome
    (session : option WCSession) (transport : Dict → Dict + string)
    (message : Dict) :
  (∀ value,
      sendMessage session transport message = Resolved value ↔
      ∃ se reply, session = Some se
        ∧ activationState se = activated ∧ isReachable se = true
        ∧ transport message = inl reply ∧ value = AnyDict reply)
  ∧ (∀ code text,
      sendMessage session transport message = Rejected code text →
      (code = "E_NOT_SUPPORTED" ↔ session = None)
      ∧ (code = "E_SESSION_NOT_ACTIVATED" ↔
         ∃ se, session = Some se ∧ activationState se ≠ activated)
      ∧ (code = "E_NOT_REACHABLE" ↔
         ∃ se, session = Some se ∧ activationState se = activated
               ∧ isReachable se = false)
      ∧ (code = "E_SEND_FAILED" ↔
         ∃ se, session = Some se ∧ activationState se = activated
               ∧ isReachable se = true ∧ transport message = inr text))
  ∧ (∀ transport',
      (∀ se, session = Some se →
             activationState se ≠ activated ∨ isReachable se = false) →
      sendMessage session transport' message
      = sendMessage session transport message).
Proof.
  unfold sendMessage. destruct session as [se|]; simpl.
  - pose proof (isActivated_true se) as Ht.
    pose proof (isActivated_false se) as Hf.
    destruct (isActivated se), (isReachable se) eqn:Hreach,
      (transport message) as [reply|failure] eqn:Htransport; simpl;
      (split; [intros value|split; [intros code text|intros transport' Hg]]);
      try naive_solver.
    all: destruct (Hg se eq_refl) as [Hna|?]; [|done]; destruct Hna;
      by apply Ht.
  - split; [|split]; [intros value|intros code text|done]; naive_solver.
Qed.

(** X6: [sendMessageData] resolves exactly when there is a session, it is
    activated, the watch is reachable, the string decodes and the session
    hands back reply bytes, and then with the base64 of those bytes; it
    rejects with [E_INVALID_DATA] exactly when the three session guards
    pass and the string does not decode, so a bad string is reported only
    to a caller who could have sent. *)
Theorem sendMessageData_outcome
    (session : option WCSession) (transport : Data → Data + string)
    (base64Data : string) :
  (∀ value,
      sendMessageData session transport base64Data = Resolved value ↔
      ∃ se data replyData, session = Some se
        ∧ activationState se = activated ∧ isReachable se = true
        ∧ dataBase64Encoded base64Data = Some data
        ∧ transport data = inl replyData
        ∧ value = AnyString (base64EncodedString replyData))
  ∧ (∀ text,
      sendMessageData session transport base64Data
        = Rejected "E_INVALID_DATA" text ↔
      (∃ se, session = Some se
         ∧ activationState se = activated ∧ isReachable se = true)
      ∧ dataBase64Encoded base64Data = None
      ∧ text = "Invalid base64 data").
Proof.
  unfold sendMessageData. destruct session as [se|]; simpl.
  - pose proof (isActivated_true se) as Ht.
    pose proof (isActivated_false se) as Hf.
    destruct (isActivated se), (isReachable se) eqn:Hreach,
      (dataBase64Encoded base64Data) as [data|] eqn:Hd; simpl;
      try destruct (transport data) as [replyData|failure] eqn:Htransport;
      (split; [intros value|intros text]); try naive_solver.
    + split.
      * intros [= <-]. exists se, data, replyData. repeat split; try done.
        by apply Ht.
      * intros (se0 & d0 & r0 & [= <-] & _ & _ & [= <-] & Hr & ->).
        rewrite Htransport in Hr. by injection Hr as <-.
    + split; [done|].
      intros (se0 & d0 & r0 & [= <-] & _ & _ & [= <-] & Hr & _). congruence.
  - split; [intros value|intros text]; naive_solver.
Qed.

(** X7: [updateApplicationContext] resolves (with nil) exactly when there
    is an activated session and the session's update does not throw; the
    watch need not be reachable, the outcome is the same whatever
    [isReachable] says. *)
Theorem updateApplicationContext_outcome
    (session : option WCSession) (update : Dict → option string)
    (context : Dict) :
  (∀ value,
      updateApplicationContext session update context = Resolved value ↔
      ∃ se, session = Some se ∧ activationState se = activated
            ∧ update context = None ∧ value = AnyNull)
  ∧ (∀ text,
      updateApplicationContext session update context
        = Rejected "E_UPDATE_FAILED" text ↔
      ∃ se, session = Some se ∧ activationState se = activated
            ∧ update context = Some text)
  ∧ (∀ se reachable,
      session = Some se →
      updateApplicationContext
        (Some {| isPaired := isPaired se;
                 isWatchAppInstalled := isWatchAppInstalled se;
                 isReachable := reachable;
                 activationState := activationState se;
                 hasContentPending := hasContentPending se;
                 isComplicationEnabled := isComplicationEnabled se;
                 remainingComplicationUserInfoTransfers :=
                   remainingComplicationUserInfoTransfers se;
                 watchDirectoryURL := watchDirectoryURL se |})
        update context
      = updateApplicationContext session update context).
Proof.
  unfold updateApplicationContext. destruct session as [se|]; simpl.
  - pose proof (isActivated_true se) as Ht.
    pose proof (isActivated_false se) as Hf.
    destruct (isActivated se) eqn:Hact, (update context) as [failure|] eqn:Hu;
      simpl;
      (split; [intros value|split; [intros text|intros se' r [= <-]]]).
    all: try (unfold isActivated in *; simpl; by rewrite Hact).
    all: assert (Hyes := proj1 Ht); assert (Hno := proj1 Hf); clear Ht Hf.
    all: split;
      [ intros Heq; try discriminate Heq; try (injection Heq as <-);
        exists se; by repeat split; eauto
      | intros (se0 & [= <-] & Ha & Hrest); try discriminate;
        try (by destruct Hrest); try (destruct Hrest as [Hnone Hv]; by rewrite Hv);
        try (injection Hrest as <-); try done;
        try (by destruct (Hno eq_refl)) ].
  - split; [|split]; [intros value|intros text|done];
      (split; [done|by intros (? & [=] & _)]).
Qed.

(** X8: [activate] rejects with [E_NOT_SUPPORTED] and does nothing where
    there is no session; where there is one it tells the session to
    activate, once, and resolves at once with the state the session is in
    at that moment, one of the three names of [ActivationState], and
    ["activated"] exactly when the session is activated; the pending
    replies stay as they are. *)
Theorem activate_outcome (session : option WCSession) (s : ModuleState) :
  (session = None →
     (∃ text, result (activate session) s = Rejected "E_NOT_SUPPORTED" text)
     ∧ exec (activate session) s = s)
  ∧ (∀ se, session = Some se →
       ∃ name,
         result (activate session) s = Resolved (AnyString name)
         ∧ name ∈ activationStates
         ∧ (name = "activated" ↔ activationState se = activated)
         ∧ emitted (activate session) s = [ActivateSession]
         ∧ pendingMessageReplies (exec (activate session) s)
           = pendingMessageReplies s
         ∧ pendingDataReplies (exec (activate session) s)
           = pendingDataReplies s
         ∧ mainQueue (exec (activate session) s) = mainQueue s).
Proof.
  split.
  - intros ->. split; [by eexists|done].
  - intros se ->. exists (activationStateString (activationState se)).
    split; [done|]. split.
    { destruct (activationState se); simpl; unfold activationStates;
        rewrite !elem_of_cons; tauto. }
    split; [by destruct (activationState se)|].
    split; [|done]. unfold emitted. simpl. by rewrite drop_app_length.
Qed.

End Async.

(** ** Session state, transfers and event payloads *)

Section Payloads.
Context {codec : Base64Codec} {uuids : UUIDSource}.

(** X9: whatever the session, [buildSessionState] yields a dictionary
    with exactly the nine keys of the TypeScript [SessionState];
    [isSupported] is true exactly when there is a session;
    [activationState] is one of the three names of [ActivationState],
    ["activated"] exactly for an activated session; and without a session
    the dictionary is the one the Android stub returns and the one the
    hook falls back to. *)
Theorem session_state_shape (session : option WCSession) :
  dom (buildSessionState session) = sessionStateKeys
  ∧ buildSessionState session !! "isSupported"
    = Some (AnyBool (bool_decide (is_Some session)))
  ∧ (∃ name,
       buildSessionState session !! "activationState" = Some (AnyString name)
       ∧ name ∈ activationStates
       ∧ (name = "activated" ↔
          ∃ se, session = Some se ∧ activationState se = activated))
  ∧ buildSessionState None = Android.getSessionState
  ∧ buildSessionState None = Hook.unsupportedState.
Proof.
  split; [by destruct session|].
  split; [by destruct session|].
  split; [|done].
  destruct session as [se|].
  - exists (activationStateString (activationState se)).
    split; [done|]. split.
    + destruct (activationState se); simpl; unfold activationStates;
        rewrite !elem_of_cons; tauto.
    + destruct (activationState se) eqn:Hst; simpl; split; try done;
        try (intros (se' & [= <-] & Hact); congruence).
      intros _. by exists se.
  - exists "notActivated". split; [done|]. split.
    + unfold activationStates. rewrite !elem_of_cons. tauto.
    + split; [done|]. by intros (se' & [=] & _).
Qed.

Lemma fileTransferInfo_no_error transfer :
  buildFileTransferInfo transfer !! "error" = None.
Proof. reflexivity. Qed.

Lemma userInfoTransferInfo_no_error transfer :
  buildUserInfoTransferInfo transfer !! "error" = None.
Proof. reflexivity. Qed.

(** X10: [transferFile] looks for the file first: if it is not there the
    result carries the error ["File not found"], an empty id and no
    transfer, and the session is not asked to transfer anything, whether
    there is one or not; if the file is there the result has no [error]
    key, also when there is no session, where it has an empty id and
    [isTransferring] false (the Android stub does report an error then);
    with a session it is the description of the transfer the session
    started. *)
Theorem transferFile_outcome
    (fileExists : string → bool)
    (start : option (string → option Dict → WCSessionFileTransfer))
    (url : string) (metadata : option Dict) :
  let info := transferFile fileExists start url metadata in
  (fileExists url = false →
     info !! "error" = Some (AnyString "File not found")
     ∧ info !! "id" = Some (AnyString "")
     ∧ info !! "isTransferring" = Some (AnyBool false)
     ∧ ∀ start', transferFile fileExists start' url metadata = info)
  ∧ (fileExists url = true →
       info !! "error" = None
       ∧ (start = None →
            info !! "id" = Some (AnyString "")
            ∧ info !! "url" = Some (AnyString url)
            ∧ info !! "isTransferring" = Some (AnyBool false))
       ∧ (∀ begin, start = Some begin →
            info = buildFileTransferInfo (begin url metadata)))
  ∧ Android.transferFile url metadata !! "error"
    = Some (AnyString "WatchConnectivity is not supported on Android").
Proof.
  unfold transferFile. split; [|split; [|done]].
  - intros ->. simpl. by repeat split.
  - intros ->. simpl. destruct start as [begin|].
    + split; [apply fileTransferInfo_no_error|].
      split; [done|]. by intros begin' [= <-].
    + by repeat split.
Qed.

(** X11: the optional fields of the event payloads are there exactly when
    the native value is: [error] in [onActivationDidComplete],
    [onFileTransferCompleted] and [onUserInfoTransferCompleted],
    [metadata] in [onFileReceived]; and a completion event agrees, on
    every other key, with the description of the transfer. *)
Theorem optional_fields_follow_native (s : ModuleState) :
  (∀ state error,
      ∃ payload,
        emitted (dispatchActivationDidComplete state error) s
          = [SendEvent "onActivationDidComplete" payload]
        ∧ payload !! "error" = AnyString <$> error
        ∧ payload !! "activationState"
          = Some (AnyString (activationStateString state)))
  ∧ (∀ url metadata,
      ∃ payload,
        emitted (dispatchFileReceived url metadata) s
          = [SendEvent "onFileReceived" payload]
        ∧ payload !! "metadata" = AnyDict <$> metadata
        ∧ payload !! "url" = Some (AnyString url))
  ∧ (∀ transfer error,
      ∃ payload,
        emitted (dispatchFileTransferCompleted transfer error) s
          = [SendEvent "onFileTransferCompleted" payload]
        ∧ payload !! "error" = AnyString <$> error
        ∧ ∀ key, key ≠ "error" →
                 payload !! key = buildFileTransferInfo transfer !! key)
  ∧ (∀ transfer error,
      ∃ payload,
        emitted (dispatchUserInfoTransferCompleted transfer error) s
          = [SendEvent "onUserInfoTransferCompleted" payload]
        ∧ payload !! "error" = AnyString <$> error
        ∧ ∀ key, key ≠ "error" →
                 payload !! key = buildUserInfoTransferInfo transfer !! key).
Proof.
  split; [|split; [|split]].
  - intros state [description|]; eexists;
      (split; [unfold emitted; simpl; by rewrite drop_app_length|]);
      by split.
  - intros url [metadata|]; eexists;
      (split; [unfold emitted; simpl; by rewrite drop_app_length|]);
      by split.
  - intros transfer [description|]; eexists;
      (split; [unfold emitted; simpl; by rewrite drop_app_length|]).
    + split; [apply lookup_insert_eq|].
      intros key Hkey. by apply lookup_insert_ne.
    + split; [apply fileTransferInfo_no_error|done].
  - intros transfer [description|]; eexists;
      (split; [unfold emitted; simpl; by rewrite drop_app_length|]).
    + split; [apply lookup_insert_eq|].
      intros key Hkey. by apply lookup_insert_ne.
    + split; [apply userInfoTransferInfo_no_error|done].
Qed.

End Payloads.

(** ** The hook and the module *)

Section HookAndModule.
Context {codec : Base64Codec} {uuids : UUIDSource}.

(** X12: when the session reports that activation completed, the module
    sends [onActivationDidComplete] and then [onSessionStateChanged]; a
    hook that receives the two ends with [isActivated] true exactly when
    the state reported is [activated] (a state the module does not know
    counts as not activated), with the session state the module built, and
    with the error of the session unless there is none or it is the empty
    string. *)
Theorem hook_follows_activation
    (module : option WCSession) (state : WCSessionActivationState)
    (error : option string) (native : Dict) (h : Hook.State)
    (s : ModuleState) :
  let es := emitted (delegate module (ActivationDidCompleteWith state error)) s in
  let h' := Hook.deliver native es h in
  eventNames es = ["onActivationDidComplete"; "onSessionStateChanged"]
  ∧ (Hook.isActivated h' = true ↔ state = activated)
  ∧ Hook.sessionState h' = Some (buildSessionState module)
  ∧ Hook.error h' =
      match error with
      | Some description =>
          if decide (description = "") then Hook.error h else Some description
      | None => Hook.error h
      end.
Proof.
  intros es h'.
  assert (es = [SendEvent "onActivationDidComplete"
                  (match error with
                   | Some description =>
                       <["error" := AnyString description]>
                         {[ "activationState" :=
                              AnyString (activationStateString state) ]}
                   | None =>
                       {[ "activationState" :=
                            AnyString (activationStateString state) ]}
                   end);
                SendEvent "onSessionStateChanged" (buildSessionState module)])
    as Hes.
  { subst es. unfold emitted, exec. simpl. rewrite <-app_assoc.
    by rewrite drop_app_length. }
  subst h'. rewrite Hes. split; [done|].
  destruct error as [description|]; simpl.
  - split; [by destruct state|]. split; [done|].
    unfold Hook.truthyString. rewrite lookup_insert_eq.
    by destruct (decide (description = "")).
  - split; [by destruct state|]. by split.
Qed.

(** X13: the hook's own [activate]: where there is no session the
    rejection of the module becomes the hook's error and nothing else
    changes; where there is one the hook holds itself activated as soon as
    the promise resolves, whatever state the module resolved with, also
    ["notActivated"]. *)
Theorem hook_activate_outcome
    (session : option WCSession) (native : Dict) (h : Hook.State)
    (s : ModuleState) :
  let h' := Hook.activated (result (activate session) s) native h in
  (session = None →
     (∃ text, Hook.error h' = Some text)
     ∧ Hook.isActivated h' = Hook.isActivated h
     ∧ Hook.sessionState h' = Hook.sessionState h)
  ∧ (is_Some session →
       Hook.isActivated h' = true
       ∧ Hook.error h' = None
       ∧ Hook.sessionState h' = Some native).
Proof.
  intros h'. split.
  - intros ->. by repeat split; [eexists|..].
  - intros [se ->]. by repeat split.
Qed.

(** X14: when the session reports a change of reachability, the module
    sends [onReachabilityChanged] and [onSessionStateChanged], both with
    the [isReachable] of the session; a hook that receives them returns
    the flags of that session, [isSupported] true among them. *)
Theorem hook_follows_reachability
    (session : WCSession) (native : Dict) (h : Hook.State) (s : ModuleState) :
  let es := emitted (delegate (Some session) (ReachabilityDidChange session)) s in
  let h' := Hook.deliver native es h in
  (∃ changed state,
     es = [SendEvent "onReachabilityChanged" changed;
           SendEvent "onSessionStateChanged" state]
     ∧ changed !! "isReachable" = Some (AnyBool (isReachable session))
     ∧ state !! "isReachable" = Some (AnyBool (isReachable session)))
  ∧ Hook.flag "isSupported" h' = AnyBool true
  ∧ Hook.flag "isPaired" h' = AnyBool (isPaired session)
  ∧ Hook.flag "isWatchAppInstalled" h' = AnyBool (isWatchAppInstalled session)
  ∧ Hook.flag "isReachable" h' = AnyBool (isReachable session)
  ∧ Hook.isActivated h' = Hook.isActivated h.
Proof.
  intros es h'.
  assert (es = [SendEvent "onReachabilityChanged"
                  {[ "isReachable" := AnyBool (isReachable session) ]};
                SendEvent "onSessionStateChanged"
                  (buildSessionState (Some session))]) as Hes.
  { subst es. unfold emitted, exec. simpl. rewrite <-app_assoc.
    by rewrite drop_app_length. }
  subst h'. rewrite Hes. split; [by do 2 eexists|]. by repeat split.
Qed.

(** X15: where the module is not supported, as on Android, the hook
    subscribes to nothing and does not activate, also with [autoActivate]
    set, and returns false for each flag it reads from the session state. *)
Theorem hook_unsupported (autoActivate : bool) (h : Hook.State) (field : string) :
  field ∈ ["isSupported"; "isPaired"; "isWatchAppInstalled"; "isReachable"] →
  let '(h', activates, subscriptions) :=
    Hook.mount Android.isSupported autoActivate h in
  activates = false
  ∧ subscriptions = []
  ∧ Hook.sessionState h' = Some Android.getSessionState
  ∧ Hook.flag field h' = AnyBool false
  ∧ Hook.isActivated h' = Hook.isActivated h.
Proof.
  intros Hfield. simpl. repeat split.
  rewrite !elem_of_cons in Hfield.
  destruct Hfield as [->|[->|[->|[->|[]%elem_of_nil]]]]; reflexivity.
Qed.

End HookAndModule.

(** ** The example screen *)

Section ExampleScreen.
Context {codec : Base64Codec} {uuids : UUIDSource}.

Lemma take_through_shorter {A} (l : list A) (x : A) (old : list A) :
  take 50 (l ++ x :: take 49 old) = take 50 (l ++ x :: old).
Proof.
  rewrite !take_app. f_equal.
  destruct (50 - length l)%nat as [|m] eqn:Hm; [done|].
  simpl. f_equal. rewrite take_take. f_equal. lia.
Qed.

Lemma logAfter_take entries prev :
  (length prev ≤ 50)%nat →
  Screen.logAfter entries prev
  = take 50 (rev (map (λ e, Screen.logLine e.1 e.2) entries) ++ prev).
Proof.
  revert prev. induction entries as [|e entries IH]; intros prev Hlen.
  - simpl. by rewrite take_ge.
  - unfold Screen.logAfter in *. simpl. rewrite IH.
    + unfold Screen.addLog. rewrite take_through_shorter.
      simpl. by rewrite <-(assoc_L (++)).
    + unfold Screen.addLog. simpl. rewrite length_take. lia.
Qed.

(** X16: the log of the example screen never holds more than 50 lines:
    after any number of [addLog] calls from the empty log it holds the
    lines of the latest 50 calls, the newest first. *)
Theorem log_keeps_latest_fifty (entries : list (string * string)) :
  let log := Screen.logAfter entries [] in
  log = take 50 (rev (map (λ e, Screen.logLine e.1 e.2) entries))
  ∧ length log = min 50 (length entries).
Proof.
  intros log. subst log. rewrite logAfter_take by (simpl; lia).
  rewrite app_nil_r. split; [done|].
  by rewrite length_take, length_rev, length_map.
Qed.

(** X17: with the example screen listening, a message that arrives with a
    reply handler is answered at once: the module sends the event, the
    screen replies with status ["received"], the handler is called once
    with that reply and the entry is consumed (its expiry block stays
    queued); a message without a reply handler leads to no bridge call.
    The screen tests [event.replyId] for truth, so this needs the UUID
    not to be the empty string. *)
Theorem example_auto_reply
    (s : ModuleState) (timestamp : Z) (message : Dict)
    (handler : MessageReplyHandler) :
  uuidString (uuidsDrawn s) ≠ "" →
  let replyId := uuidString (uuidsDrawn s) in
  let reply : Dict :=
    list_to_map [ ("status", AnyString "received");
                  ("timestamp", AnyNumber timestamp) ] in
  let answered := Screen.receiveAndAutoReply timestamp message (Some handler) in
  let ignored := Screen.receiveAndAutoReply timestamp message None in
  (result answered s = true
   ∧ (∃ event,
        emitted answered s
        = [SendEvent "onMessageReceived" event; InvokeMessageReply handler reply])
   ∧ pendingMessageReplies (exec answered s) !! replyId = None
   ∧ {| fireAt := now s + replyExpiry; block := ExpireMessageReply replyId |}
       ∈ mainQueue (exec answered s))
  ∧ (result ignored s = false
     ∧ (∃ event, emitted ignored s = [SendEvent "onMessageReceived" event])
     ∧ pendingMessageReplies (exec ignored s) = pendingMessageReplies s
     ∧ mainQueue (exec ignored s) = mainQueue s).
Proof.
  intros Hne replyId reply answered ignored.
  assert (answered s =
            (true,
             {| pendingMessageReplies :=
                  delete replyId (<[replyId := handler]> (pendingMessageReplies s));
                pendingDataReplies := pendingDataReplies s;
                mainQueue := mainQueue s ++
                  [{| fireAt := now s + replyExpiry;
                      block := ExpireMessageReply replyId |}];
                now := now s;
                uuidsDrawn := S (uuidsDrawn s);
                effects := (effects s ++
                  [SendEvent "onMessageReceived"
                     (<["replyId" := AnyString replyId]>
                        {[ "message" := AnyDict message ]})]) ++
                  [InvokeMessageReply handler reply] |})) as Hrun.
  { subst answered.
    unfold Screen.receiveAndAutoReply, Screen.autoReply, Hook.truthyString,
      dispatchMessageReceived, replyToMessage, sendEvent, bind, ret,
      removeMessageReply, removeValue, setMessageReply, asyncAfter, perform,
      newUUID.
    simpl. fold replyId. rewrite lookup_insert_eq.
    rewrite decide_False by done. simpl. by rewrite lookup_insert_eq. }
  split.
  - unfold emitted, result, exec. rewrite Hrun. simpl.
    split; [done|]. split.
    + eexists. rewrite <-(assoc_L (++)). by rewrite drop_app_length.
    + split; [apply lookup_delete_eq|].
      rewrite elem_of_app. right. by apply list_elem_of_singleton.
  - assert (ignored s =
              (false,
               {| pendingMessageReplies := pendingMessageReplies s;
                  pendingDataReplies := pendingDataReplies s;
                  mainQueue := mainQueue s;
                  now := now s;
                  uuidsDrawn := uuidsDrawn s;
                  effects := effects s ++
                    [SendEvent "onMessageReceived"
                       {[ "message" := AnyDict message ]}] |})) as Hrun'
      by reflexivity.
    unfold emitted, result, exec. rewrite Hrun'. simpl.
    split; [done|]. split; [|done].
    eexists. by rewrite drop_app_length.
Qed.

End ExampleScreen.

(** ** More on the pending replies *)

Section MoreReplies.
Context {codec : Base64Codec} {uuids : UUIDSource}.

Lemma drawn_call c s k Y :
  (∀ k Y, is_Some (pendingEntry k s Y) → drawn s Y) →
  is_Some (pendingEntry k (exec (call c) s) Y) →
  drawn (exec (call c) s) Y.
Proof.
  intros Hs [v Hv].
  destruct (entry_after_call _ _ _ _ _ Hv) as [Hold|[-> Hreg]].
  - eapply drawn_mono; [apply call_counters|]. apply (Hs k). by rewrite Hold.
  - exists (uuidsDrawn s). split; [|done].
    rewrite (registers_draws _ _ _ s Hreg). lia.
Qed.

(** X18: in every run, the id of each pending reply, of either kind, is
    one the module has sent to the application in the [replyId] of an
    event: no handler is stored under an id the application was not
    told. *)
Theorem pending_ids_were_sent (calls : list Call) (k : Kind) (replyId : string) :
  let s := run calls initialState in
  is_Some (pendingEntry k s replyId) →
  replyId ∈ issuedReplyIds (effects s).
Proof.
  assert (∀ s0, (∀ k Y, is_Some (pendingEntry k s0 Y) → drawn s0 Y) →
                ∀ k Y, is_Some (pendingEntry k (run calls s0) Y) →
                       drawn (run calls s0) Y) as Hall.
  { induction calls as [|c cs IH]; intros s0 Hs0; [done|].
    simpl. apply IH. intros k' Y'. by apply drawn_call. }
  intros s Hp.
  assert (∀ k Y, is_Some (pendingEntry k initialState Y) →
                 drawn initialState Y) as Hinit.
  { intros [] Y [v Hv]; simpl in Hv; by rewrite lookup_empty in Hv. }
  destruct (Hall initialState Hinit k replyId Hp) as (j & Hj & ->).
  subst s. rewrite run_issued. simpl. rewrite Nat.sub_0_r.
  apply list_elem_of_fmap. exists j. split; [done|].
  apply elem_of_seq. lia.
Qed.

Lemma exec_reply_message X reply s :
  replyToMessage X reply s =
    (bool_decide (is_Some (pendingMessageReplies s !! X)),
     {| pendingMessageReplies := delete X (pendingMessageReplies s);
        pendingDataReplies := pendingDataReplies s;
        mainQueue := mainQueue s;
        now := now s;
        uuidsDrawn := uuidsDrawn s;
        effects := effects s ++
          match pendingMessageReplies s !! X with
          | Some handler => [InvokeMessageReply handler reply]
          | None => []
          end |}).
Proof.
  destruct (pendingMessageReplies s !! X) as [handler|] eqn:Hp.
  - by rewrite (replyToMessage_found _ _ _ _ Hp).
  - rewrite (replyToMessage_absent _ _ _ Hp), app_nil_r, delete_id by done.
    by destruct s.
Qed.

(** X19: replies to two different ids can be made in either order: each
    finds what it would have found alone, the module ends in the same
    state, and the same handlers have been called with the same replies,
    only in the other order. *)
Theorem replies_to_different_ids_commute
    (s : ModuleState) (X Y : string) (replyX replyY : Dict) :
  X ≠ Y →
  let xy := exec (replyToMessage Y replyY) (exec (replyToMessage X replyX) s) in
  let yx := exec (replyToMessage X replyX) (exec (replyToMessage Y replyY) s) in
  result (replyToMessage Y replyY) (exec (replyToMessage X replyX) s)
    = result (replyToMessage Y replyY) s
  ∧ result (replyToMessage X replyX) (exec (replyToMessage Y replyY) s)
    = result (replyToMessage X replyX) s
  ∧ pendingMessageReplies xy = pendingMessageReplies yx
  ∧ pendingDataReplies xy = pendingDataReplies yx
  ∧ mainQueue xy = mainQueue yx
  ∧ effects xy ≡ₚ effects yx.
Proof.
  intros Hne xy yx. subst xy yx. unfold exec, result.
  rewrite !exec_reply_message. simpl. rewrite ?exec_reply_message. simpl.
  rewrite !lookup_delete_ne by done.
  split; [done|]. split; [done|]. split; [apply delete_delete|].
  split; [done|]. split; [done|].
  rewrite <-!(assoc_L (++)). apply Permutation_app_head, Permutation_app_comm.
Qed.

End MoreReplies.

(** ** The phone and the example watch app *)

Section PhoneAndWatch.

(** X20: when the session delivers a message to the example watch app
    and the reply of the watch back to the phone, [sendMessage] from an
    activated session with the watch reachable resolves with what
    [handleMessageWithReply] made of the message.  That dictionary is
    never empty; for the action ["ping"] it has status ["pong"] and the
    watch's timestamp, for ["getData"] the greeting under [data]; it
    lacks a [status] exactly when the action is the string ["getData"],
    and its status is ["ok"] exactly when the message has no action that
    is a string. *)
Theorem watch_example_reply_by_action
    (session : WCSession) (transport : Dict → Dict + string)
    (timestamp : AnyValue) (message : Dict) :
  activationState session = activated →
  isReachable session = true →
  transport message = inl (Watch.didReceiveMessage timestamp message) →
  ∃ reply,
    sendMessage (Some session) transport message = Resolved (AnyDict reply)
    ∧ reply ≠ ∅
    ∧ (message !! "action" = Some (AnyString "ping") →
       reply !! "status" = Some (AnyString "pong")
       ∧ reply !! "timestamp" = Some timestamp)
    ∧ (message !! "action" = Some (AnyString "getData") →
       reply !! "data" = Some (AnyString "Hello from Watch!"))
    ∧ (reply !! "status" = None ↔
       message !! "action" = Some (AnyString "getData"))
    ∧ (reply !! "status" = Some (AnyString "ok") ↔
       ∀ action, message !! "action" ≠ Some (AnyString action)).
Proof.
  intros Hact Hreach Hdelivered.
  exists (Watch.handleMessageWithReply timestamp message).
  split.
  { unfold sendMessage, isActivated. by rewrite Hact, Hreach, Hdelivered. }
  unfold Watch.handleMessageWithReply.
  destruct (message !! "action") as [[| | |action| | |]|] eqn:Haction;
    try (split; [by apply insert_non_empty|];
         split; [done|]; split; [done|]; split; [by split|];
         split; [by intros _ action'|done]).
  destruct (decide (action = "ping")) as [->|Hping].
  { split; [by apply insert_non_empty|]. split; [done|]. split; [done|].
    split; [by split|]. split; [done|]. intros Hall. by destruct (Hall "ping"). }
  destruct (decide (action = "getData")) as [->|Hdata].
  { split; [by apply insert_non_empty|]. split; [by intros [= ?]|].
    split; [done|]. split; [by split|]. split; [done|].
    intros Hall. by destruct (Hall "getData"). }
  split; [by apply insert_non_empty|]. split; [by intros [= ?]|].
  split; [by intros [= ?]|]. split; [split; [done|by intros [= ->]]|].
  split; [done|]. intros Hall. by destruct (Hall action).
Qed.

End PhoneAndWatch.

(** ** The definitions of this part at work *)

Section MoreExamples.
#[local] Existing Instance RFC4648.codec.
#[local] Existing Instance counterUUIDs.

Example session_state_of_paired_watch :
  buildSessionState (Some pairedWatch) !! "activationState"
    = Some (AnyString "activated")
  ∧ buildSessionState (Some pairedWatch) !! "watchDirectoryURL"
    = Some (AnyString "file:///watch/")
  ∧ buildSessionState None !! "watchDirectoryURL" = Some AnyNull.
Proof. by vm_compute. Qed.

Example send_to_paired_watch :
  sendMessage (Some pairedWatch) acknowledging ∅
  = Resolved (AnyDict {[ "ack" := AnyBool true ]}).
Proof. reflexivity. Qed.

Example send_data_not_base64 :
  sendMessageData (Some pairedWatch) inl "not base64"
  = Rejected "E_INVALID_DATA" "Invalid base64 data".
Proof. reflexivity. Qed.

Example send_data_without_session :
  sendMessageData None inl "not base64"
  = Rejected "E_NOT_SUPPORTED" "WatchConnectivity is not supported".
Proof. reflexivity. Qed.

Example log_of_three :
  Screen.logAfter [("9:00", "a"); ("9:01", "b"); ("9:02", "c")] []
  = ["[9:02] c"; "[9:01] b"; "[9:00] a"].
Proof. reflexivity. Qed.

Lemma data_message_echoed_witness :
  let s1 := exec (dispatchMessageDataReceived [Byte.x68; Byte.x69]
                    (Some (DataReply 8))) initialState in
  ∃ replyId base64Data,
    result (dispatchMessageDataReceived [Byte.x68; Byte.x69]
              (Some (DataReply 8))) initialState !! "replyId"
      = Some (AnyString replyId)
    ∧ result (dispatchMessageDataReceived [Byte.x68; Byte.x69]
                (Some (DataReply 8))) initialState !! "data"
      = Some (AnyString base64Data)
    ∧ result (replyToMessageData replyId base64Data) s1 = true
    ∧ emitted (replyToMessageData replyId base64Data) s1
      = [InvokeDataReply (DataReply 8) [Byte.x68; Byte.x69]].
Proof.
  apply (data_message_echoed initialState [Byte.x68; Byte.x69] (DataReply 8)).
  reflexivity.
Defined.

Lemma watch_example_reply_by_action_witness :
  ∃ reply,
    sendMessage (Some pairedWatch)
      (λ message, inl (Watch.didReceiveMessage (AnyNumber 1700000000) message))
      {[ "action" := AnyString "ping" ]}
      = Resolved (AnyDict reply)
    ∧ reply !! "status" = Some (AnyString "pong").
Proof.
  destruct (watch_example_reply_by_action pairedWatch
              (λ message, inl (Watch.didReceiveMessage (AnyNumber 1700000000) message))
              (AnyNumber 1700000000)
              {[ "action" := AnyString "ping" ]} eq_refl eq_refl eq_refl)
    as (reply & Hsend & _ & Hping & _).
  exists reply. split; [done|]. by apply Hping.
Defined.

Lemma hook_unsupported_witness :
  Hook.flag "isReachable" (Hook.mount Android.isSupported true Hook.initial).1.1
  = AnyBool false.
Proof.
  assert (Hin : "isReachable"
                ∈ ["isSupported"; "isPaired"; "isWatchAppInstalled"; "isReachable"]).
  { rewrite !elem_of_cons. tauto. }
  pose proof (hook_unsupported true Hook.initial "isReachable" Hin) as Hthm.
  simpl in Hthm. by destruct Hthm as (_ & _ & _ & Hflag & _).
Defined.

Lemma example_auto_reply_witness :
  result (Screen.receiveAndAutoReply 1700000000000 ∅ (Some (MessageReply 7)))
    initialState = true.
Proof.
  assert (Hne : uuidString (uuidsDrawn initialState) ≠ "") by discriminate.
  pose proof (example_auto_reply initialState 1700000000000 ∅ (MessageReply 7)
                Hne) as Hthm.
  cbv zeta in Hthm. by destruct Hthm as [[Hr _] _].
Defined.

Lemma pending_ids_were_sent_witness :
  "0" ∈ issuedReplyIds
          (effects (run [DidReceiveMessageWithReply ∅ (MessageReply 7)]
                        initialState)).
Proof.
  apply (pending_ids_were_sent [DidReceiveMessageWithReply ∅ (MessageReply 7)]
           Structured "0").
  by eexists.
Defined.

Lemma replies_to_different_ids_commute_witness :
  let s := run [DidReceiveMessageWithReply ∅ (MessageReply 1);
                DidReceiveMessageWithReply ∅ (MessageReply 2)] initialState in
  effects (exec (replyToMessage "1" ∅) (exec (replyToMessage "0" ∅) s))
  ≡ₚ effects (exec (replyToMessage "0" ∅) (exec (replyToMessage "1" ∅) s)).
Proof.
  intros s. assert (Hne : "0" ≠ "1") by discriminate.
  pose proof (replies_to_different_ids_commute s "0" "1" ∅ ∅ Hne) as Hthm.
  cbv zeta in Hthm. by destruct Hthm as (_ & _ & _ & _ & _ & Hperm).
Defined.

Example late_block_runs_at_31s :
  let s1 := exec (call (DidReceiveMessageWithReply ∅ (MessageReply 7)))
                 initialState in
  pendingMessageReplies (moves [MainQueueRuns 0] s1) !! "0"
    = Some (MessageReply 7)
  ∧ pendingMessageReplies
      (moves [TimePasses 31000000000; MainQueueRuns 0] s1) !! "0" = None
  ∧ effects (moves [TimePasses 31000000000; MainQueueRuns 0] s1) = effects s1.
Proof. by vm_compute. Qed.

(** C3 as the claim has it fails: with one reply pending since T0 = 0 and
    the main queue late, the expiry block has not run at T0 + 30.1 s; a
    reply made then finds the entry and the handler is called. *)
Lemma reply_after_30s_reaches_handler :
  let s1 := exec (call (DidReceiveMessageWithReply ∅ (MessageReply 7)))
                 initialState in
  let s2 := moves [TimePasses 30100000000] s1 in
  now s1 + replyExpiry ≤ now s2
  ∧ pendingEntry Structured s2 "0" = Some (inl (MessageReply 7))
  ∧ result (replyToMessage "0" ∅) s2 = true
  ∧ effects (exec (replyToMessage "0" ∅) s2)
    = effects s2 ++ [InvokeMessageReply (MessageReply 7) ∅].
Proof. by vm_compute. Qed.

Lemma unanswered_entry_expires_after_30s_witness :
  let s1 := exec (call (DidReceiveMessageWithReply ∅ (MessageReply 7)))
                 initialState in
  pendingEntry Structured (moves [TimePasses 29900000000] s1) "0"
    = Some (inl (MessageReply 7))
  ∧ pendingEntry Structured
      (moves [TimePasses 30100000000; MainQueueRuns 0] s1) "0" = None
  ∧ pendingEntry Structured
      (moves [Occurs (FromBridge (Elapse 30000000000))] s1) "0" = None.
Proof.
  intros s1. split; [|split].
  - pose proof (unanswered_entry_expires_after_30s []
                  (DidReceiveMessageWithReply ∅ (MessageReply 7)) Structured
                  (inl (MessageReply 7)) [TimePasses 29900000000]
                  counterUUIDs_unique eq_refl) as Hthm.
    cbv zeta in Hthm. destruct Hthm as (_ & _ & _ & Hbefore & _).
    apply Hbefore.
    + constructor; [|constructor]. intros [].
    + reflexivity.
  - pose proof (unanswered_entry_expires_after_30s []
                  (DidReceiveMessageWithReply ∅ (MessageReply 7)) Structured
                  (inl (MessageReply 7))
                  [TimePasses 30100000000; MainQueueRuns 0]
                  counterUUIDs_unique eq_refl) as Hthm.
    cbv zeta in Hthm. destruct Hthm as (_ & _ & _ & _ & _ & Hran & _).
    apply Hran. intros Hq. vm_compute in Hq. by apply elem_of_nil in Hq.
  - pose proof (unanswered_entry_expires_after_30s []
                  (DidReceiveMessageWithReply ∅ (MessageReply 7)) Structured
                  (inl (MessageReply 7))
                  [Occurs (FromBridge (Elapse 30000000000))]
                  counterUUIDs_unique eq_refl) as Hthm.
    cbv zeta in Hthm. destruct Hthm as (_ & _ & _ & _ & _ & _ & Hpunctual).
    apply Hpunctual.
    + intros b Hb. vm_compute in Hb. by apply elem_of_nil in Hb.
    + by vm_compute.
Defined.

Lemma pending_reply_has_expiry_scheduled_witness :
  ∃ b,
    b ∈ mainQueue
          (moves [Occurs (FromSession (Some pairedWatch)
                            (DidReceiveMessageFrom ∅ (Some (MessageReply 7))));
                  TimePasses 31000000000] initialState)
    ∧ block b = expiryOf Structured "0"
    ∧ fireAt b ≤ 31000000000 + replyExpiry.
Proof.
  apply (pending_reply_has_expiry_scheduled
           [Occurs (FromSession (Some pairedWatch)
                      (DidReceiveMessageFrom ∅ (Some (MessageReply 7))));
            TimePasses 31000000000]
           Structured "0" (inl (MessageReply 7))).
  reflexivity.
Defined.

End MoreExamples.
